(** * Loader options and DML statement builders of sqlalchemy

    A shallow embedding of [lib/sqlalchemy/orm/strategy_options.py] (bound
    and unbound loader options, the property-option family) and of
    [lib/sqlalchemy/sql/dml.py] (the INSERT/UPDATE/DELETE builders).

    Python exceptions are the [Raise] case of the result type [res]; an
    attribute context (a Python dict keyed by [(path, name)]) is an
    association list that keeps insertion order, as a dict does. *)

From Stdlib Require Import String Ascii List Bool Arith ZArith Lia Permutation.
Import ListNotations.
Local Open Scope string_scope.
Local Open Scope list_scope.

(** ** Python exceptions and the error monad *)

Inductive exn : Type :=
| ArgumentError (msg : string)
| InvalidRequestError (msg : string)
| AttributeError (what : string)
| TypeError (what : string)
| KeyError (key : string)
| IndexError
| NameError (name : string).

Inductive res (A : Type) : Type :=
| Ok (a : A)
| Raise (e : exn).
Arguments Ok {A} a.
Arguments Raise {A} e.

Definition res_bind {A B} (m : res A) (f : A -> res B) : res B :=
  match m with
  | Ok a => f a
  | Raise e => Raise e
  end.

Notation "'let*' p ':=' m 'in' f" := (res_bind m (fun p => f))
  (at level 200, p pattern, m at level 100, f at level 200).

(** [for x in xs: acc = f(acc, x)], stopping at the first exception. *)
Fixpoint fold_res {A B} (f : A -> B -> res A) (xs : list B) (acc : A) : res A :=
  match xs with
  | [] => Ok acc
  | x :: xs' => let* acc' := f acc x in fold_res f xs' acc'
  end.

(** ** Python dicts as ordered association lists

    [d[k] = v] replaces the value in place when [k] is present, else appends;
    [d.update(e)] does this for every item of [e] in order. *)
Section Dict.
  Context {K V : Type} (K_eqb : K -> K -> bool).

Fixpoint dict_set (d : list (K * V)) (k : K) (v : V) : list (K * V) :=
    match d with
    | [] => [(k, v)]
    | (k', v') :: d' =>
        if K_eqb k' k then (k', v) :: d' else (k', v') :: dict_set d' k v
    end.

Fixpoint dict_get (d : list (K * V)) (k : K) : option V :=
    match d with
    | [] => None
    | (k', v') :: d' => if K_eqb k' k then Some v' else dict_get d' k
    end.

Definition dict_update (d e : list (K * V)) : list (K * V) :=
    fold_left (fun acc kv => dict_set acc (fst kv) (snd kv)) e d.
End Dict.

(** ** The mapped-entity model

    A property of a mapping has a key, an identity, the entity declaring it
    and, for a relationship, the entity it targets ([prop.mapper]). *)
Record prop : Type := mkProp {
  prop_key : string;
  prop_id : nat;
  prop_parent : nat;
  prop_mapper : option nat
}.

Definition prop_eqb (p q : prop) : bool :=
  String.eqb (prop_key p) (prop_key q) && Nat.eqb (prop_id p) (prop_id q)
  && Nat.eqb (prop_parent p) (prop_parent q)
  && match prop_mapper p, prop_mapper q with
     | Some a, Some b => Nat.eqb a b
     | None, None => true
     | _, _ => false
     end.

(** A class-bound attribute ([PropComparator]): its property, the entity it
    was taken from ([_parententity]) and an optional [of_type] target given
    as (mapper, is_aliased_class). *)
Record attr : Type := mkAttr {
  attr_prop : prop;
  attr_parententity : nat;
  attr_of_type : option (nat * bool)
}.

(** The raw tokens of an option: a string key or a class-bound attribute. *)
Inductive utoken : Type :=
| TStr (s : string)
| TAttr (a : attr).

(** ** Path registry

    Modelled from the spec: [PathRegistry] (orm/path_registry.py) is not part
    of the source files. Section 3 of the spec: a path is an ordered sequence
    alternating entity and property tokens, rooted at an entity; two paths are
    equal iff their tokens are; [parent] is the path minus its last token;
    [has_entity] says whether the path terminates on an entity. Section 4.1:
    extending by a relationship appends the property and then its target
    entity, which the code does with [path[prop]] followed by
    [path.entity_path] when [has_entity] holds; so a path whose last token is
    a relationship property leads to an entity ([has_entity]), and its
    [entity_path] appends that entity. *)
Inductive pelem : Type :=
| PEnt (e : nat)
| PProp (p : prop).

Definition path := list pelem.

Definition pelem_eqb (a b : pelem) : bool :=
  match a, b with
  | PEnt x, PEnt y => Nat.eqb x y
  | PProp p, PProp q => prop_eqb p q
  | _, _ => false
  end.

Fixpoint path_eqb (p q : path) : bool :=
  match p, q with
  | [], [] => true
  | a :: p', b :: q' => pelem_eqb a b && path_eqb p' q'
  | _, _ => false
  end.

Definition path_tip (p : path) : option pelem := last (map Some p) None.

Definition path_parent (p : path) : path := removelast p.

Definition has_entity (p : path) : bool :=
  match path_tip p with
  | Some (PEnt _) => true
  | Some (PProp pr) => match prop_mapper pr with Some _ => true | None => false end
  | None => false
  end.

Definition entity_path (p : path) : res path :=
  match path_tip p with
  | Some (PEnt _) => Ok p
  | Some (PProp pr) =>
      match prop_mapper pr with
      | Some m => Ok (p ++ [PEnt m])
      | None => Raise (AttributeError "entity_path")
      end
  | None => Raise (AttributeError "entity_path")
  end.

Definition path_entity (p : path) : res nat :=
  match path_tip p with
  | Some (PEnt e) => Ok e
  | Some (PProp pr) =>
      match prop_mapper pr with
      | Some m => Ok m
      | None => Raise (AttributeError "entity")
      end
  | None => Raise (AttributeError "entity")
  end.

(** ** Attribute context

    Keys are [(path, name)]; values are what the options store. [VLoad p s]
    is a [Load] object with path [p] and strategy [s] (its [context] field is
    the very dict it is stored in, so it is left out of the value). *)
Inductive pyval : Type :=
| PVStr (s : string)
| PVBool (b : bool).

Definition strat := list (string * pyval).

Inductive cval : Type :=
| VLoad (p : path) (s : option strat)
| VBool (b : bool)
| VPoly (m : nat)
| VAdapter (a : nat)
| VNone.

Definition ckey := (path * string)%type.

Definition ckey_eqb (a b : ckey) : bool :=
  path_eqb (fst a) (fst b) && String.eqb (snd a) (snd b).

Definition ctx := list (ckey * cval).

(** [path.set(context, key, value)] *)
Definition ctx_set (c : ctx) (p : path) (k : string) (v : cval) : ctx :=
  dict_set ckey_eqb c (p, k) v.

Definition ctx_get (c : ctx) (p : path) (k : string) : option cval :=
  dict_get ckey_eqb c (p, k).

(** ** Queries

    What the options read of a [Query]: its mapper entities (each with its
    [entity_zero] and [mapper]), its current path (non-empty in a secondary
    load) and its attribute context. *)
Record mapper_entity : Type := mkME {
  me_entity_zero : nat;
  me_mapper : nat
}.

Record query : Type := mkQ {
  q_mapper_entities : list mapper_entity;
  q_current_path : path;
  q_attributes : ctx
}.

(** ** Bound and unbound loader options (strategy_options.py)

    [attrs_of e] is [inspect(e).attrs]: the properties of entity [e] by key.
    [corresponds_to] is [_MapperEntity.corresponds_to]; [searchfor_of] is
    the choice at the head of [_find_entity_prop_comparator]
    ([mapper] itself when it is an aliased class, else
    [_class_to_mapper(mapper)]). All three belong to the mapper and query
    subsystems. *)
Section Options.
  Variable attrs_of : nat -> list prop.
  Variable corresponds_to : mapper_entity -> nat -> bool.
  Variable searchfor_of : nat -> nat.

  (** [entity.attrs[key]] *)
Definition attrs_lookup (e : nat) (k : string) : res prop :=
    match find (fun p => String.eqb (prop_key p) k) (attrs_of e) with
    | Some p => Ok p
    | None => Raise (KeyError k)
    end.

  (** A bound [Load]: its path, strategy and context. The context is shared
      with the clones [_generative] makes; a bound option is used as a value
      here, so sharing is not modelled for it. *)
Record load : Type := mkLoad {
    l_path : path;
    l_strategy : option strat;
    l_context : ctx
  }.

  (** [Load._generate_path(path, attr)]; the [path_with_polymorphic] entry
      goes to [self.context], threaded through as [c]. *)
Definition load_generate_path (c : ctx) (p : path) (t : utoken)
    : res (path * ctx) :=
    let* (p1, c1) :=
      match t with
      | TStr s =>
          let* e := path_entity p in
          let* pr := attrs_lookup e s in
          Ok (p ++ [PProp pr], c)
      | TAttr a =>
          let pr := attr_prop a in
          match attr_of_type a with
          | Some (m, is_aliased) =>
              let* c' :=
                if is_aliased then Ok c
                else let* ep := entity_path p in
                     Ok (ctx_set c (ep ++ [PProp pr]) "path_with_polymorphic" (VPoly m)) in
              Ok (p ++ [PProp pr; PEnt m], c')
          | None => Ok (p ++ [PProp pr], c)
          end
      end in
    if has_entity p1 then let* p2 := entity_path p1 in Ok (p2, c1)
    else Ok (p1, c1).

  (** [Load._set_strategy] *)
Definition load_set_strategy (l : load) (t : utoken) (s : option strat)
    : res load :=
    let* (p, c) := load_generate_path (l_context l) (l_path l) t in
    let c' := match s with
              | Some _ => ctx_set c (path_parent p) "loader" (VLoad p s)
              | None => c
              end in
    Ok (mkLoad p s c').

  (** [Load._set_options(kw)] *)
Definition load_set_options (l : load) (kw : list (string * cval)) : load :=
    let target := if has_entity (l_path l) then path_parent (l_path l)
                  else l_path l in
    mkLoad (l_path l) (l_strategy l)
      (fold_left (fun c kv => ctx_set c target (fst kv) (snd kv)) kw (l_context l)).

Definition joined_strat : strat := [("lazy", PVStr "joined")].

  (** [Load.joined(attr, innerjoin=None)] *)
Definition load_joined (l : load) (t : utoken) (innerjoin : option bool)
    : res load :=
    let* loader := load_set_strategy l t (Some joined_strat) in
    match innerjoin with
    | Some b => Ok (load_set_options loader [("eager_join_type", VBool b)])
    | None => Ok loader
    end.

  (** [Load.default(attr)] *)
Definition load_default (l : load) (t : utoken) : res load :=
    load_set_strategy l t None.

  (** [Load(entity)]: the root path of the entity and an empty context. *)
Definition load_new (e : nat) : load := mkLoad [PEnt e] None [].

  (** [_UnboundLoad._find_entity_basestring] *)
Definition find_entity_basestring_u (q : query) (token : string) (raiseerr : bool)
    : res (option mapper_entity) :=
    match q_mapper_entities q with
    | ent :: _ => Ok (Some ent)
    | [] =>
        if raiseerr then
          Raise (ArgumentError ("Query has only expression-based entities - can't find property named '" ++ token ++ "'."))
        else Ok None
    end.

  (** [PropertyOption._find_entity_basestring] (the same body, in the
      property-option family). *)
Definition find_entity_basestring_p (q : query) (token : string) (raiseerr : bool)
    : res (option mapper_entity) :=
    match q_mapper_entities q with
    | ent :: _ => Ok (Some ent)
    | [] =>
        if raiseerr then
          Raise (ArgumentError ("Query has only expression-based entities - can't find property named '" ++ token ++ "'."))
        else Ok None
    end.

  (** [_UnboundLoad._find_entity_prop_comparator]; its last parameter is
      named [conditional] and it raises when that is false. *)
Definition find_entity_prop_comparator_u (q : query) (token : string)
    (mapper : nat) (conditional : bool) : res (option mapper_entity) :=
    let searchfor := searchfor_of mapper in
    match find (fun ent => corresponds_to ent searchfor) (q_mapper_entities q) with
    | Some ent => Ok (Some ent)
    | None =>
        if negb conditional then
          match q_mapper_entities q with
          | [] => Raise (ArgumentError ("Query has only expression-based entities - can't find property named '" ++ token ++ "'."))
          | _ => Raise (ArgumentError ("Can't find property '" ++ token ++ "' on any entity specified in this Query."))
          end
        else Ok None
    end.

  (** [PropertyOption._find_entity_prop_comparator]; raises when [raiseerr]. *)
Definition find_entity_prop_comparator_p (q : query) (token : string)
    (mapper : nat) (raiseerr : bool) : res (option mapper_entity) :=
    let searchfor := searchfor_of mapper in
    match find (fun ent => corresponds_to ent searchfor) (q_mapper_entities q) with
    | Some ent => Ok (Some ent)
    | None =>
        if raiseerr then
          match q_mapper_entities q with
          | [] => Raise (ArgumentError ("Query has only expression-based entities - can't find property named '" ++ token ++ "'."))
          | _ => Raise (ArgumentError ("Can't find property '" ++ token ++ "' on any entity specified in this Query."))
          end
        else Ok None
    end.
End Options.

(** [str.split(".")]: every dot separates, empty pieces are kept. *)
Fixpoint split_dot_aux (s cur : string) : list string :=
  match s with
  | EmptyString => [cur]
  | String ch s' =>
      if Ascii.eqb ch "."%char then cur :: split_dot_aux s' ""
      else split_dot_aux s' (cur ++ String ch EmptyString)
  end.

Definition split_dot (s : string) : list string := split_dot_aux s "".

Fixpoint replace_nth {A} (l : list A) (i : nat) (x : A) : list A :=
  match l, i with
  | [], _ => []
  | _ :: l', 0 => x :: l'
  | y :: l', S i' => y :: replace_nth l' i' x
  end.

(** ** The object store of unbound options

    [_UnboundLoad] objects are mutated after they are shared: [_generate]
    copies [__dict__] shallowly, so every clone refers to the same [_to_bind]
    set, and [joined] updates [local_opts] of a clone already in that set.
    Objects and sets therefore live in a heap, addressed by index. *)
Record uload : Type := mkU {
  u_path : list utoken;
  u_strategy : option strat;
  u_local_opts : list (string * cval);
  u_to_bind : nat
}.

Record heap : Type := mkH {
  h_objs : list uload;
  h_sets : list (list nat)
}.

Definition get_obj (h : heap) (i : nat) : res uload :=
  match nth_error (h_objs h) i with
  | Some o => Ok o
  | None => Raise (AttributeError "object")
  end.

Definition put_obj (h : heap) (i : nat) (o : uload) : heap :=
  mkH (replace_nth (h_objs h) i o) (h_sets h).

Definition alloc_obj (h : heap) (o : uload) : nat * heap :=
  (length (h_objs h), mkH (h_objs h ++ [o]) (h_sets h)).

Definition set_members (h : heap) (s : nat) : list nat := nth s (h_sets h) [].

(** [s.add(i)]; iteration order of a Python set is unspecified, so the
    insertion order kept here is only used through [Permutation]. *)
Definition set_add (h : heap) (s i : nat) : heap :=
  let m := set_members h s in
  mkH (h_objs h)
      (replace_nth (h_sets h) s (if existsb (Nat.eqb i) m then m else m ++ [i])).

Section Unbound.
  Variable attrs_of : nat -> list prop.
  Variable corresponds_to : mapper_entity -> nat -> bool.
  Variable searchfor_of : nat -> nat.

  (** [_UnboundLoad()]: empty path, fresh [_to_bind] set, empty local
      options, and the class attribute [strategy = None]. *)
Definition unbound_new (h : heap) : nat * heap :=
    let s := length (h_sets h) in
    alloc_obj (mkH (h_objs h) (h_sets h ++ [[]])) (mkU [] None [] s).

  (** [_UnboundLoad._generate]: shallow copy, then a fresh [local_opts]. *)
Definition unbound_generate (h : heap) (i : nat) : res (nat * heap) :=
    let* o := get_obj h i in
    Ok (alloc_obj h (mkU (u_path o) (u_strategy o) [] (u_to_bind o))).

  (** [_UnboundLoad._set_strategy], wrapped by [_generative]. *)
Definition unbound_set_strategy (h : heap) (i : nat) (t : utoken)
    (s : option strat) : res (nat * heap) :=
    let* (c, h1) := unbound_generate h i in
    let* o := get_obj h1 c in
    let o' := mkU (u_path o ++ [t]) s (u_local_opts o) (u_to_bind o) in
    let h2 := put_obj h1 c o' in
    Ok (c, match s with
           | Some _ => set_add h2 (u_to_bind o') c
           | None => h2
           end).

  (** [_UnboundLoad._set_options(kw)]: [self.local_opts.update(kw)], in place. *)
Definition unbound_set_options (h : heap) (i : nat) (kw : list (string * cval))
    : res heap :=
    let* o := get_obj h i in
    Ok (put_obj h i (mkU (u_path o) (u_strategy o)
                         (dict_update String.eqb (u_local_opts o) kw) (u_to_bind o))).

  (** [Load.joined] run on an unbound option. *)
Definition unbound_joined (h : heap) (i : nat) (t : utoken) (innerjoin : option bool)
    : res (nat * heap) :=
    let* (c, h1) := unbound_set_strategy h i t (Some joined_strat) in
    match innerjoin with
    | Some b =>
        let* h2 := unbound_set_options h1 c [("eager_join_type", VBool b)] in
        Ok (c, h2)
    | None => Ok (c, h1)
    end.

  (** [Load.default] run on an unbound option. *)
Definition unbound_default (h : heap) (i : nat) (t : utoken) : res (nat * heap) :=
    unbound_set_strategy h i t None.

Definition last_opt {A} (l : list A) : option A := last (map Some l) None.

  (** [_UnboundLoad._from_keys(meth, keys, chained, kw)] with
      [meth = cls.joined] (its only use in the module, through [_joinedload]
      and [_joinedload_all]) and [kw] the optional [innerjoin] flag. *)
Definition from_keys (keys : list string) (chained : bool) (innerjoin : option bool)
    (h : heap) : res (nat * heap) :=
    let (o, h1) := unbound_new h in
    let all_tokens := map TStr (flat_map split_dot keys) in
    let* (o2, h2) :=
      fold_res (fun st tok =>
                  if chained then unbound_joined (snd st) (fst st) tok innerjoin
                  else unbound_default (snd st) (fst st) tok)
               (removelast all_tokens) (o, h1) in
    match last_opt all_tokens with
    | Some t => unbound_joined h2 o2 t innerjoin
    | None => Raise IndexError
    end.

  (** [_UnboundLoad._bind_loader(query, context, raiseerr)], returning the
      context it writes. With a non-empty current path the method calls
      [self._chop_path(start_path, current_path)]; [_chop_path] is declared
      with the two parameters [(to_chop, path)] and no [self], so the bound
      call passes three arguments and raises [TypeError]. When
      [_find_entity_*] returns [None], [entity.entity_zero] raises
      [AttributeError]. *)
Definition bind_loader (q : query) (c : ctx) (raiseerr : bool) (o : uload)
    : res ctx :=
    match q_current_path q with
    | _ :: _ =>
        Raise (TypeError "_chop_path() takes 2 positional arguments but 3 were given")
    | [] =>
        let start_path := u_path o in
        match start_path with
        | [] => Raise IndexError
        | token :: _ =>
            let* ent :=
              match token with
              | TStr s => find_entity_basestring_u q s raiseerr
              | TAttr a =>
                  find_entity_prop_comparator_u corresponds_to searchfor_of q
                    (prop_key (attr_prop a)) (attr_parententity a) raiseerr
              end in
            match ent with
            | None => Raise (AttributeError "'NoneType' object has no attribute 'entity_zero'")
            | Some e =>
                let l0 := mkLoad [PEnt (me_entity_zero e)] (u_strategy o) c in
                let* l := fold_res (fun l t =>
                            let* (p, c') := load_generate_path attrs_of (l_context l) (l_path l) t in
                            Ok (mkLoad p (l_strategy l) c'))
                          start_path l0 in
                let key := if has_entity (l_path l) then path_parent (l_path l) else l_path l in
                let l1 := mkLoad (l_path l) (l_strategy l)
                            (ctx_set (l_context l) key "loader" (VLoad (l_path l) (l_strategy l))) in
                match u_local_opts o with
                | [] => Ok (l_context l1)
                | kw => Ok (l_context (load_set_options l1 kw))
                end
            end
        end
    end.

  (** The loop of [_UnboundLoad._process] over the members of [_to_bind],
      taken in the order [members]. *)
Definition unbound_bind_all (h : heap) (members : list nat) (q : query)
    (raiseerr : bool) : res ctx :=
    fold_res (fun c i => let* o := get_obj h i in bind_loader q c raiseerr o)
             members [].

Definition unbound_process_in (h : heap) (members : list nat) (q : query)
    (raiseerr : bool) : res query :=
    let* c := unbound_bind_all h members q raiseerr in
    Ok (mkQ (q_mapper_entities q) (q_current_path q)
            (dict_update ckey_eqb (q_attributes q) c)).

  (** [_UnboundLoad._process(query, raiseerr)] *)
Definition unbound_process (h : heap) (i : nat) (q : query) (raiseerr : bool)
    : res query :=
    let* o := get_obj h i in
    unbound_process_in h (set_members h (u_to_bind o)) q raiseerr.

  (** [process_query] and [process_query_conditionally] *)
Definition unbound_process_query h i q := unbound_process h i q true.
Definition unbound_process_query_conditionally h i q := unbound_process h i q false.
End Unbound.

(** ** Module-level names of strategy_options.py

    The names the module binds: its imports (lines 11-15) and its top-level
    [def] and [class] statements. A free name a function body reads that is
    neither a local, a parameter, one of these nor a builtin raises
    [NameError] when the line runs. *)
Definition strategy_options_globals : list string :=
  ["MapperOption"; "PropComparator"; "util"; "_generative"; "Generative";
   "sa_exc"; "inspect"; "_is_aliased_class"; "_class_to_mapper";
   "Load"; "_UnboundLoad"; "eagerload"; "eagerload_all"; "subqueryload";
   "subqueryload_all"; "lazyload"; "lazyload_all"; "noload"; "immediateload";
   "contains_eager"; "defer"; "undefer"; "undefer_group"; "PropertyOption";
   "StrategizedOption"; "DeferredOption"; "UndeferGroupOption";
   "EagerLazyOption"; "EagerJoinOption"; "LoadEagerFromAliasOption"].

Definition lookup_global (name : string) : res unit :=
  if existsb (String.eqb name) strategy_options_globals then Ok tt
  else Raise (NameError name).

(** The [lazy] argument of [EagerLazyOption]. *)
Inductive lazy_arg : Type :=
| LazyTrue | LazyFalse | LazyNone | LazyStr (s : string).

Record eager_lazy_option : Type := mkELO {
  elo_key : list utoken;
  elo_lazy : lazy_arg;
  elo_chained : bool;
  elo_propagate_to_loaders : bool
}.

(** [EagerLazyOption.__init__(key, lazy, chained, propagate_to_loaders)];
    its last line reads [properties.RelationshipProperty._strategy_lookup],
    the strategy class being kept out of the record. *)
Definition eager_lazy_option_init (key : list utoken) (lazy : lazy_arg)
  (chained propagate_to_loaders : bool) : res eager_lazy_option :=
  match key with
  | [] => Raise IndexError
  | k0 :: _ =>
      let* (key', propagate') :=
        match k0 with
        | TStr s =>
            if String.eqb s "*" then
              if negb (Nat.eqb (length key) 1) then
                Raise (ArgumentError "Wildcard identifier '*' must be specified alone.")
              else Ok ([TStr "relationship:*"], false)
            else Ok (key, propagate_to_loaders)
        | TAttr _ => Ok (key, propagate_to_loaders)
        end in
      let* _ := lookup_global "properties" in
      Ok (mkELO key' lazy chained propagate')
  end.

(** [contains_eager(keys, kwargs)]: [alias] is popped from [kwargs];
    [other_kwargs] says whether anything is left. The error on leftover
    keywords is built with [exc], and the two options with [_strategies]. *)
Definition contains_eager (keys : list utoken) (other_kwargs : bool)
  : res (eager_lazy_option * list utoken) :=
  if other_kwargs then
    let* _ := lookup_global "exc" in
    Raise (ArgumentError "Invalid kwargs for contains_eager")
  else
    let* _ := lookup_global "_strategies" in
    let* elo := eager_lazy_option_init keys (LazyStr "joined") true false in
    let* _ := lookup_global "_strategies" in
    Ok (elo, keys).

(** [path.path[-2:]] unpacked as [(root_mapper, prop)]. *)
Definition last_two (p : path) : res (pelem * pelem) :=
  match rev p with
  | b :: a :: _ => Ok (a, b)
  | _ => Raise (TypeError "not enough values to unpack")
  end.

(** [prop.mapper] *)
Definition pelem_mapper (x : pelem) : res nat :=
  match x with
  | PProp pr =>
      match prop_mapper pr with
      | Some m => Ok m
      | None => Raise (AttributeError "mapper")
      end
  | PEnt _ => Raise (AttributeError "mapper")
  end.

Definition adapter_val (a : option nat) : cval :=
  match a with Some x => VAdapter x | None => VNone end.

(** [path.setdefault(context, key, value)] *)
Definition ctx_setdefault (c : ctx) (p : path) (k : string) (v : cval) : ctx :=
  match ctx_get c p k with
  | Some _ => c
  | None => ctx_set c p k v
  end.

(** [path.contains(context, key)] *)
Definition ctx_contains (c : ctx) (p : path) (k : string) : bool :=
  match ctx_get c p k with Some _ => true | None => false end.

Definition last_res {A} (l : list A) : res A :=
  match last_opt l with Some x => Ok x | None => Raise IndexError end.

(** The [alias] of a [LoadEagerFromAliasOption]: a string name or the
    selectable of an aliased construct. *)
Inductive alias_arg : Type :=
| AliasName (s : string)
| AliasSelectable (sel : nat).

Section EagerFromAlias.
  (** [query._polymorphic_adapters.get(mapper, None)] *)
  Variable polymorphic_adapters : nat -> option nat.

  (** [LoadEagerFromAliasOption.process_query_property(query, paths)];
      the result is the query's new attribute context. The method is not
      wrapped by [util.dependencies], so [orm_util] and [sql_util] are looked
      up as module-level names. *)
Definition leafo_process_query_property (alias : option alias_arg)
    (chained : bool) (q : query) (paths : list path) : res ctx :=
    let* c1 :=
      if chained then
        fold_res (fun c p =>
                    let* (_, pr) := last_two p in
                    let* m := pelem_mapper pr in
                    Ok (ctx_setdefault c p "user_defined_eager_row_processor"
                                       (adapter_val (polymorphic_adapters m))))
                 (removelast paths) (q_attributes q)
      else Ok (q_attributes q) in
    let* lastp := last_res paths in
    let* (_, pr) := last_two lastp in
    match alias with
    | Some _ =>
        let* _ := lookup_global "sql_util" in
        let* m := pelem_mapper pr in
        Ok (ctx_set c1 lastp "user_defined_eager_row_processor" (VAdapter m))
    | None =>
        if ctx_contains c1 lastp "path_with_polymorphic" then
          let* _ := lookup_global "orm_util" in
          match ctx_get c1 lastp "path_with_polymorphic" with
          | Some (VPoly e) => Ok (ctx_set c1 lastp "user_defined_eager_row_processor" (VAdapter e))
          | _ => Raise (AttributeError "entity")
          end
        else
          let* m := pelem_mapper pr in
          Ok (ctx_set c1 lastp "user_defined_eager_row_processor"
                      (adapter_val (polymorphic_adapters m)))
    end.
End EagerFromAlias.

(** [PropertyOption._process(query, raiseerr)] and its [_process_paths].
    The first statement of [_process_paths] reads [PathRegistry.root];
    [PathRegistry] is not a name of the module, so the lookup raises
    [NameError] and the rest of the body, [process_paths_rest], never runs.
    The subclass hook [process_query_property] is a parameter too. *)
Section PropertyOptionProcess.
  Variable process_paths_rest : query -> bool -> res (list path).
  Variable process_query_property : query -> list path -> res ctx.

Definition process_paths (q : query) (raiseerr : bool) : res (list path) :=
    let* _ := lookup_global "PathRegistry" in
    process_paths_rest q raiseerr.

Definition property_option_process (q : query) (raiseerr : bool) : res ctx :=
    let* paths := process_paths q raiseerr in
    match paths with
    | [] => Ok (q_attributes q)
    | _ => process_query_property q paths
    end.
End PropertyOptionProcess.

(** ** INSERT / UPDATE / DELETE builders (dml.py) *)

#[local] Set Warnings "-register-all".

(** Python values passed to [values()]. *)
Inductive pyobj : Type :=
| PyNone
| PyInt (n : nat)
| PyStr (s : string)
| PyDict (items : list (string * pyobj))
| PyList (l : list pyobj)
| PyTuple (l : list pyobj).

Inductive stmt_kind : Type := KInsert | KUpdate | KDelete.

(** The [_return_defaults] attribute: [False], [True] or a column tuple. *)
Inductive rdval : Type :=
| RDBool (b : bool)
| RDCols (cols : list nat).

(** A statement: its class, the keys of [self.table.c], [parameters],
    [_has_multi_parameters], [select] (an INSERT from SELECT), [_returning]
    and [_return_defaults]. Columns are named by numbers. *)
Record stmt : Type := mkStmt {
  s_kind : stmt_kind;
  s_table_cols : list string;
  s_parameters : pyobj;
  s_has_multi : bool;
  s_select : option nat;
  s_returning : option (list nat);
  s_return_defaults : rdval
}.

(** [_supports_multi_parameters]: [True] on [Insert], [False] on
    [ValuesBase] and so on [Update]. *)
Definition supports_multi (k : stmt_kind) : bool :=
  match k with KInsert => true | _ => false end.

(** [process_single] inside [UpdateBase._process_colparams] *)
Definition process_single (cols : list string) (p : pyobj) : pyobj :=
  match p with
  | PyList l | PyTuple l => PyDict (combine cols l)
  | _ => p
  end.

Definition is_row (p : pyobj) : bool :=
  match p with PyList _ | PyTuple _ | PyDict _ => true | _ => false end.

Definition is_dict (p : pyobj) : bool :=
  match p with PyDict _ => true | _ => false end.

Definition multi_msg := "This construct does not support multiple parameter sets.".
Definition mix_msg := "Can't mix single-values and multiple values formats in one statement".

(** [UpdateBase._process_colparams(parameters)] *)
Definition process_colparams (s : stmt) (p : pyobj) : res (pyobj * bool) :=
  match p with
  | PyList l | PyTuple l =>
      match l with
      | [] => Raise IndexError
      | x :: _ =>
          if is_row x then
            if supports_multi (s_kind s) then
              Ok (PyList (map (process_single (s_table_cols s)) l), true)
            else Raise (InvalidRequestError multi_msg)
          else Ok (process_single (s_table_cols s) p, false)
      end
  | _ => Ok (process_single (s_table_cols s) p, false)
  end.

(** [dict.update(other)] *)
Definition py_dict_update (d p : pyobj) : res pyobj :=
  match d, p with
  | PyDict d1, PyDict d2 => Ok (PyDict (dict_update String.eqb d1 d2))
  | _, _ => Raise (TypeError "update")
  end.

(** [list.extend(other)] *)
Definition py_list_extend (l p : pyobj) : res pyobj :=
  match l, p with
  | PyList l1, PyList l2 => Ok (PyList (l1 ++ l2))
  | _, _ => Raise (TypeError "extend")
  end.

Definition with_params (s : stmt) (p : pyobj) (m : bool) : stmt :=
  mkStmt (s_kind s) (s_table_cols s) p m (s_select s) (s_returning s) (s_return_defaults s).

(** [self.parameters.copy()]: dicts and lists have [copy]. *)
Definition py_copy (p : pyobj) : res pyobj :=
  match p with
  | PyDict d => Ok (PyDict d)
  | PyList l => Ok (PyList l)
  | PyNone => Raise (AttributeError "'NoneType' object has no attribute 'copy'")
  | PyInt _ => Raise (AttributeError "'int' object has no attribute 'copy'")
  | PyStr _ => Raise (AttributeError "'str' object has no attribute 'copy'")
  | PyTuple _ => Raise (AttributeError "'tuple' object has no attribute 'copy'")
  end.

(** [list(self.parameters)]: iterating a dict gives its keys, a string
    its characters; an int is not iterable. *)
Definition py_list (p : pyobj) : res pyobj :=
  match p with
  | PyList l => Ok (PyList l)
  | PyTuple l => Ok (PyList l)
  | PyDict d => Ok (PyList (map (fun kv => PyStr (fst kv)) d))
  | PyStr t => Ok (PyList (map (fun c => PyStr (String c EmptyString)) (list_ascii_of_string t)))
  | PyInt _ => Raise (TypeError "'int' object is not iterable")
  | PyNone => Raise (TypeError "'NoneType' object is not iterable")
  end.

(** The body of [ValuesBase.values(args, kwargs)] run on the clone. The
    method is defined on [ValuesBase], so a [Delete] has no such attribute. *)
Definition values_body (s : stmt) (args : list pyobj) (kwargs : list (string * pyobj))
  : res stmt :=
  match s_kind s with
  | KDelete => Raise (AttributeError "'Delete' object has no attribute 'values'")
  | _ =>
  match s_select s with
  | Some _ => Raise (InvalidRequestError "This construct already inserts from a SELECT")
  | None =>
  if s_has_multi s && (match kwargs with [] => false | _ => true end) then
    Raise (InvalidRequestError "This construct already has multiple parameter sets.")
  else
  let* v := match args with
            | [] => Ok (PyDict [])
            | [a] => Ok a
            | _ => Raise (ArgumentError "Only a single dictionary/tuple or list of dictionaries/tuples is accepted positionally.")
            end in
  let* s1 :=
    match s_parameters s with
    | PyNone =>
        let* (p, m) := process_colparams s v in Ok (with_params s p m)
    | params =>
        if s_has_multi s then
          let* params0 := py_list params in
          let* (p, m) := process_colparams s v in
          if negb m then Raise (ArgumentError mix_msg)
          else let* params' := py_list_extend params0 p in Ok (with_params s params' m)
        else
          let* params0 := py_copy params in
          let* (p, m) := process_colparams s v in
          if m then Raise (ArgumentError mix_msg)
          else let* params' := py_dict_update params0 p in Ok (with_params s params' m)
    end in
  match kwargs with
  | [] => Ok s1
  | _ =>
      if s_has_multi s1 then
        Raise (ArgumentError "Can't pass kwargs and multiple parameter sets simultaenously")
      else
        let* params' := py_dict_update (s_parameters s1) (PyDict kwargs) in
        Ok (with_params s1 params' (s_has_multi s1))
  end
  end
  end.

(** The body of [UpdateBase.returning(cols)] run on the clone. *)
Definition returning_body (s : stmt) (cols : list nat) : res stmt :=
  Ok (mkStmt (s_kind s) (s_table_cols s) (s_parameters s) (s_has_multi s)
             (s_select s) (Some cols) (s_return_defaults s)).

(** [cols or True] *)
Definition rd_of (cols : list nat) : rdval :=
  match cols with [] => RDBool true | _ => RDCols cols end.

(** The body of [ValuesBase.return_defaults(cols)] run on the clone. The
    method is defined on [ValuesBase], so a [Delete] has no such attribute. *)
Definition return_defaults_body (s : stmt) (cols : list nat) : res stmt :=
  match s_kind s with
  | KDelete => Raise (AttributeError "'Delete' object has no attribute 'return_defaults'")
  | _ => Ok (mkStmt (s_kind s) (s_table_cols s) (s_parameters s) (s_has_multi s)
                    (s_select s) (s_returning s) (rd_of cols))
  end.

(** Statements as objects in a store, for the clone discipline.

    Modelled from the spec: the [_generative] decorator (sql/base.py) is not
    part of the source files. The spec (sections 3, 5 and 9): every mutating
    method is a clone-then-mutate-the-clone, returning the clone and leaving
    the original as it was. *)
Definition sheap := list stmt.

Definition generative (body : stmt -> res stmt) (hp : sheap) (i : nat)
  : res (nat * sheap) :=
  match nth_error hp i with
  | Some s => let* s' := body s in Ok (length hp, hp ++ [s'])
  | None => Raise (AttributeError "object")
  end.

Definition stmt_returning (hp : sheap) (i : nat) (cols : list nat) : res (nat * sheap) :=
  generative (fun s => returning_body s cols) hp i.


(** [insert(table)], [update(table)] and [delete(table)] with the
    constructors' defaults: no values ([_process_colparams(None)] gives
    [None]), no select, [returning=None], [return_defaults=False]. *)
Definition new_stmt (k : stmt_kind) (cols : list string) : stmt :=
  mkStmt k cols PyNone false None None (RDBool false).

(** ** Vocabulary for the directives an unbound option writes *)

(** The paths [Load._generate_path] goes through when it replays string
    tokens from [p], one per token. *)
Fixpoint walk_trace (attrs_of : nat -> list prop) (p : path) (ts : list string)
  : res (list path) :=
  match ts with
  | [] => Ok []
  | t :: ts' =>
      let* (p', _) := load_generate_path attrs_of [] p (TStr t) in
      let* ps := walk_trace attrs_of p' ts' in
      Ok (p' :: ps)
  end.

(** Where [_bind_loader] registers the loader of a resolved path. *)
Definition loader_key (p : path) : path :=
  if has_entity p then path_parent p else p.

(** The ["loader"] entry a joined-eager option resolved to [p] writes. *)
Definition directive (p : path) : ckey * cval :=
  ((loader_key p, "loader"), VLoad p (Some joined_strat)).

(** The ["loader"] entries of a context, in order. *)
Definition loader_entries (c : ctx) : ctx :=
  filter (fun kv => String.eqb (snd (fst kv)) "loader") c.

(** The [local_opts] that [joined(..., innerjoin)] leaves on an option. *)
Definition lopts (innerjoin : option bool) : list (string * cval) :=
  match innerjoin with
  | Some b => [("eager_join_type", VBool b)]
  | None => []
  end.

(** The options a chain of [_set_strategy] calls allocates, from the token
    prefix [p], one per token of [r]. *)
Fixpoint chain_objs (p r : list utoken) (st : option strat)
  (lo : list (string * cval)) (s : nat) : list uload :=
  match r with
  | [] => []
  | t :: r' => mkU (p ++ [t]) st lo s :: chain_objs (p ++ [t]) r' st lo s
  end.

(** ** More of dml.py *)

(** The truth value of [self.parameters] in [if self.parameters:]. *)
Definition py_truthy (p : pyobj) : bool :=
  match p with
  | PyNone => false
  | PyInt n => negb (Nat.eqb n 0)
  | PyStr s => negb (String.eqb s "")
  | PyDict d => match d with [] => false | _ => true end
  | PyList l | PyTuple l => match l with [] => false | _ => true end
  end.

(** [dict((n, Null()) for n in names)]: a repeated name keeps its first
    position. The SQL [Null()] element is written [PyNone] here; nothing
    reads these values. *)
Definition null_params (names : list string) : list (string * pyobj) :=
  fold_left (fun d n => dict_set String.eqb d n PyNone) names [].

(** The body of [Insert.from_select(names, select)] run on the clone;
    [select] stands for [_interpret_as_select(select)]. The method exists on
    [Insert] only. *)
Definition from_select_body (s : stmt) (names : list string) (select : nat)
  : res stmt :=
  match s_kind s with
  | KInsert =>
      if py_truthy (s_parameters s) then
        Raise (InvalidRequestError "This construct already inserts value expressions")
      else
        let* (p, m) := process_colparams s (PyDict (null_params names)) in
        Ok (mkStmt (s_kind s) (s_table_cols s) p m (Some select)
                   (s_returning s) (s_return_defaults s))
  | KUpdate => Raise (AttributeError "'Update' object has no attribute 'from_select'")
  | KDelete => Raise (AttributeError "'Delete' object has no attribute 'from_select'")
  end.

(** [Insert.__init__(table, values, returning=..., return_defaults=...)] and
    [Update.__init__] with the same arguments: [ValuesBase.__init__] runs
    [_process_colparams(values)], then [select] is [None] and [_returning],
    [_return_defaults] are stored as given. *)
Definition values_base_init (k : stmt_kind) (cols : list string) (values : pyobj)
  (returning : option (list nat)) (return_defaults : rdval) : res stmt :=
  let s0 := mkStmt k cols PyNone false None returning return_defaults in
  let* (p, m) := process_colparams s0 values in
  Ok (with_params s0 p m).

Section CopyInternals.
  (** [_clone(element)] from sql/elements.py *)
  Variable clone_select : nat -> nat.

  (** [Insert._copy_internals] *)
Definition insert_copy_internals (s : stmt) : res stmt :=
    let* p := py_copy (s_parameters s) in
    Ok (mkStmt (s_kind s) (s_table_cols s) p (s_has_multi s)
               (option_map clone_select (s_select s))
               (s_returning s) (s_return_defaults s)).
End CopyInternals.

Section ExtraFroms.
  (** [item._cloned_set]: the element and the elements it was cloned from. *)
  Variable cloned_set : nat -> list nat.

  (** [Update._extra_froms]: [items] is [_from_objects(self._whereclause)],
      [None] when the statement has no WHERE clause; [seen] starts as
      [set([self.table])]. *)
Definition extra_froms (table : nat) (items : option (list nat)) : list nat :=
    match items with
    | None => []
    | Some its =>
        fst (fold_left
               (fun (st : list nat * list nat) item =>
                  let (froms, seen) := st in
                  (if existsb (fun x => existsb (Nat.eqb x) seen) (cloned_set item)
                   then froms else froms ++ [item],
                   seen ++ cloned_set item))
               its ([], [table]))
    end.
End ExtraFroms.

(** ** More of strategy_options.py *)

(** [_UnboundLoad._chop_path(to_chop, path)]. [to_chop] is a tuple of
    tokens; [path.pairs()] yields [(mapper, prop)] pairs, given here as a
    list. Properties are compared by identity. *)

(** [c_token.property]: a class-bound attribute yields its property; a
    string has no such attribute. *)
Definition c_property (t : utoken) : res nat :=
  match t with
  | TAttr a => Ok (prop_id (attr_prop a))
  | TStr _ => Raise (AttributeError "'str' object has no attribute 'property'")
  end.

(** [p_prop.property]: the [prop] of a pair is a [MapperProperty]
    ([RelationshipProperty] or [ColumnProperty]); [property] is an
    attribute of the class-bound [QueryableAttribute], not of these. *)
Definition p_property (p : prop) : res nat :=
  match prop_mapper p with
  | Some _ => Raise (AttributeError "'RelationshipProperty' object has no attribute 'property'")
  | None => Raise (AttributeError "'ColumnProperty' object has no attribute 'property'")
  end.

(** The [for ... in enumerate(zip(to_chop, path.pairs()))] loop from index
    [k]: the last value bound to [i], and whether the loop ended by
    [break]. *)
Fixpoint chop_loop (k : nat) (items : list (utoken * (nat * prop))) (i : Z)
  : res (Z * bool) :=
  match items with
  | [] => Ok (i, false)
  | (c_token, (_, p_prop)) :: rest =>
      let* x := c_property c_token in
      let* y := p_property p_prop in
      if negb (Nat.eqb x y) then Ok (Z.of_nat k, true)
      else chop_loop (S k) rest (Z.of_nat k)
  end.

Definition chop_path (to_chop : list utoken) (pairs : list (nat * prop))
  : res (list utoken) :=
  let* (i, broke) := chop_loop 0 (combine to_chop pairs) (-1)%Z in
  let i := if broke then i else (i + 1)%Z in
  Ok (skipn (Z.to_nat i) to_chop).

(** The key as [PropertyOption.__getstate__] stores it: a string token as
    it is, a class-bound attribute as [(class, key)]. *)
Inductive state_token : Type :=
| SToken (s : string)
| SPair (cls : nat) (key : string).

(** [PropertyOption.__getstate__] and [__setstate__], on the [key] entry of
    the state; the other entries are copied unchanged. The key is a tuple,
    which [util.to_list] turns into a list of the same tokens. *)
Section PickleKey.
  (** [token._parentmapper.class_] *)
  Variable parentmapper_class : attr -> nat.
  (** [getattr(cls, propkey)] *)
  Variable class_getattr : nat -> string -> res utoken.

Definition getstate_key (key : list utoken) : list state_token :=
    map (fun token =>
           match token with
           | TAttr a => SPair (parentmapper_class a) (prop_key (attr_prop a))
           | TStr s => SToken s
           end) key.

Definition setstate_key (key : list state_token) : res (list utoken) :=
    fold_res (fun ret k =>
                match k with
                | SPair cls propkey =>
                    let* v := class_getattr cls propkey in Ok (ret ++ [v])
                | SToken s => Ok (ret ++ [TStr s])
                end) key [].
End PickleKey.

(** The module-level option functions. [eagerload] and [eagerload_all]
    call the free names [joinedload] and [joinedload_all]; the others build
    their option through the free name [_strategies]. What these calls would
    build is not part of this module and is left abstract. *)
Section Factories.
  Variable opt : Type.
  Variable joinedload_call : list utoken -> option bool -> res opt.
  Variable strategies_EagerLazyOption : list utoken -> lazy_arg -> bool -> res opt.
  Variable strategies_DeferredOption : list utoken -> bool -> res opt.
  Variable strategies_UndeferGroupOption : string -> res opt.

Definition eagerload (args : list utoken) (innerjoin : option bool) : res opt :=
    let* _ := lookup_global "joinedload" in joinedload_call args innerjoin.

Definition eagerload_all (args : list utoken) (innerjoin : option bool) : res opt :=
    let* _ := lookup_global "joinedload_all" in joinedload_call args innerjoin.

Definition subqueryload (keys : list utoken) : res opt :=
    let* _ := lookup_global "_strategies" in
    strategies_EagerLazyOption keys (LazyStr "subquery") false.

Definition subqueryload_all (keys : list utoken) : res opt :=
    let* _ := lookup_global "_strategies" in
    strategies_EagerLazyOption keys (LazyStr "subquery") true.

Definition lazyload (keys : list utoken) : res opt :=
    let* _ := lookup_global "_strategies" in
    strategies_EagerLazyOption keys LazyTrue false.

Definition lazyload_all (keys : list utoken) : res opt :=
    let* _ := lookup_global "_strategies" in
    strategies_EagerLazyOption keys LazyTrue true.

Definition noload (keys : list utoken) : res opt :=
    let* _ := lookup_global "_strategies" in
    strategies_EagerLazyOption keys LazyNone false.

Definition immediateload (keys : list utoken) : res opt :=
    let* _ := lookup_global "_strategies" in
    strategies_EagerLazyOption keys (LazyStr "immediate") false.

Definition defer (key : list utoken) : res opt :=
    let* _ := lookup_global "_strategies" in
    strategies_DeferredOption key true.

Definition undefer (key : list utoken) : res opt :=
    let* _ := lookup_global "_strategies" in
    strategies_DeferredOption key false.

Definition undefer_group (name : string) : res opt :=
    let* _ := lookup_global "_strategies" in
    strategies_UndeferGroupOption name.
End Factories.

(** The strategy [Load.defer] passes: [(("deferred", True), ("instrument", True))]. *)
Definition defer_strat : strat := [("deferred", PVBool true); ("instrument", PVBool true)].

(** One pass of the loop of [_UnboundLoad._set_column_strategy] on the
    clone [c]: [path = self._generate_path(self.path, attr)],
    [cloned = self._generate()], then [cloned.strategy], [cloned.path] are
    set and [cloned] is added to [self._to_bind]. *)
Definition column_strategy_step (c : nat) (s : option strat) (h : heap) (a : utoken)
  : res heap :=
  let* o := get_obj h c in
  let path := u_path o ++ [a] in
  let* (k, h1) := unbound_generate h c in
  let* ko := get_obj h1 k in
  let h2 := put_obj h1 k (mkU path s (u_local_opts ko) (u_to_bind ko)) in
  Ok (set_add h2 (u_to_bind o) k).

(** [_UnboundLoad._set_column_strategy(attrs, strategy)], wrapped by
    [_generative]: the body runs on a clone of [self]. *)
Definition unbound_set_column_strategy (h : heap) (i : nat) (attrs : list utoken)
  (s : option strat) : res (nat * heap) :=
  let* (c, h1) := unbound_generate h i in
  let* h2 := fold_res (column_strategy_step c s) attrs h1 in
  Ok (c, h2).

(** [Load.defer(attrs)] run on an unbound option. *)
Definition unbound_defer (h : heap) (i : nat) (attrs : list utoken) : res (nat * heap) :=
  unbound_set_column_strategy h i attrs (Some defer_strat).

(** [Load._set_column_strategy(attrs, strategy)] on a bound option, wrapped
    by [_generative]: the path of every attribute is generated from the
    option's own path, and a clone with that path and the strategy is stored
    as ["loader"] at the path in the context. The option returned keeps its
    path and strategy. *)
Definition load_set_column_strategy (attrs_of : nat -> list prop) (l : load)
  (attrs : list utoken) (s : option strat) : res load :=
  let* c := fold_res (fun c a =>
                let* (p, c1) := load_generate_path attrs_of c (l_path l) a in
                Ok (ctx_set c1 p "loader" (VLoad p s))) attrs (l_context l) in
  Ok (mkLoad (l_path l) (l_strategy l) c).

(** [Load.defer(attrs)] *)
Definition load_defer (attrs_of : nat -> list prop) (l : load) (attrs : list utoken)
  : res load :=
  load_set_column_strategy attrs_of l attrs (Some defer_strat).

(** [EagerJoinOption.process_query_property(query, paths)] on the context
    [query._attributes]: with [chained] every path gets the
    ["eager_join_type"] entry, otherwise only [paths[-1]]. *)
Definition eager_join_process_query_property (chained : bool) (innerjoin : bool)
  (paths : list path) (c : ctx) : res ctx :=
  if chained
  then Ok (fold_left (fun c p => ctx_set c p "eager_join_type" (VBool innerjoin)) paths c)
  else match last_opt paths with
       | Some p => Ok (ctx_set c p "eager_join_type" (VBool innerjoin))
       | None => Raise IndexError
       end.

(** The WHERE clause of [Update] and [Delete]. [and_] and
    [_literal_as_text] belong to sql/elements.py. *)
Section Where.
  Variable W clause : Type.
  Variable and_ : clause -> clause -> clause.
  Variable literal_as_text : W -> clause.

  (** The [whereclause] argument of [Update.__init__] and [Delete.__init__]. *)
Definition init_whereclause (whereclause : option W) : option clause :=
  match whereclause with
  | Some w => Some (literal_as_text w)
  | None => None
  end.

  (** [Update.where(whereclause)] and [Delete.where(whereclause)] (the same
      body), on the [_whereclause] of the clone [_generative] makes. *)
Definition where_ (wc : option clause) (whereclause : W) : option clause :=
  match wc with
  | Some c => Some (and_ c (literal_as_text whereclause))
  | None => Some (literal_as_text whereclause)
  end.

End Where.

(** ** A small mapping used to instantiate the theorems

    Entities: 1 = User, 2 = Order, 3 = Item, 4 = Keyword. [User.orders],
    [Order.items] and [Item.keywords] are relationships, [User.name] a
    column, [Order.user] a relationship back to User. *)
Definition user_orders := mkProp "orders" 10 1 (Some 2).
Definition user_name := mkProp "name" 11 1 None.
Definition order_items := mkProp "items" 12 2 (Some 3).
Definition order_user := mkProp "user" 13 2 (Some 1).
Definition item_keywords := mkProp "keywords" 14 3 (Some 4).

Definition demo_attrs (e : nat) : list prop :=
  match e with
  | 1 => [user_orders; user_name]
  | 2 => [order_items; order_user]
  | 3 => [item_keywords]
  | _ => []
  end.

(** An entity corresponds to the mapper it was built from. *)
Definition demo_corresponds_to (ent : mapper_entity) (m : nat) : bool :=
  Nat.eqb (me_mapper ent) m.

Definition demo_user_query : query := mkQ [mkME 1 1] [] [].
Definition demo_empty_heap : heap := mkH [] [].

(** [_class_to_mapper]: here a mapper is named by its entity. *)
Definition demo_searchfor (m : nat) : nat := m.

(** [query(Order)] run as the secondary load of [User.orders]: its current
    path is [User -> orders]. *)
Definition demo_secondary_query : query :=
  mkQ [mkME 2 2] [PEnt 1; PProp user_orders] [].

(** A query with only column expressions: no mapper entity. *)
Definition demo_expr_query : query := mkQ [] [] [].

(** The class-bound attribute [Order.user]. *)
Definition order_user_attr : attr := mkAttr order_user 2 None.

(** [_UnboundLoad().joined(t)] *)
Definition demo_unbound_joined (t : utoken) : res (nat * heap) :=
  let (o, h) := unbound_new demo_empty_heap in unbound_joined h o t None.

(** The paths of [User.orders.items.keywords], one per token. *)
Definition demo_walk : list path :=
  [[PEnt 1; PProp user_orders; PEnt 2];
   [PEnt 1; PProp user_orders; PEnt 2; PProp order_items; PEnt 3];
   [PEnt 1; PProp user_orders; PEnt 2; PProp order_items; PEnt 3; PProp item_keywords; PEnt 4]].

(** A query whose context records [path_with_polymorphic] at
    [Order -> user]. *)
Definition demo_poly_query : query :=
  mkQ [mkME 2 2] [] [(([PEnt 2; PProp order_user], "path_with_polymorphic"), VPoly 5)].

(** The class of [User.orders] and [Order.items] is the entity they were
    taken from; [getattr] on it returns the attribute of that name. *)
Definition demo_class_getattr (cls : nat) (k : string) : res utoken :=
  match find (fun p => String.eqb (prop_key p) k) (demo_attrs cls) with
  | Some p => Ok (TAttr (mkAttr p cls None))
  | None => Raise (AttributeError k)
  end.

(** ** Basic facts: equality tests and dicts *)

Lemma prop_eqb_spec (p q : prop) : prop_eqb p q = true <-> p = q.
Proof.
  destruct p as [k1 i1 a1 m1], q as [k2 i2 a2 m2]; unfold prop_eqb; simpl.
  split.
  - intros H. apply andb_true_iff in H as [H H4].
    apply andb_true_iff in H as [H H3].
    apply andb_true_iff in H as [H1 H2].
    apply String.eqb_eq in H1; apply Nat.eqb_eq in H2; apply Nat.eqb_eq in H3.
    destruct m1, m2; try discriminate; [apply Nat.eqb_eq in H4|]; subst; reflexivity.
  - intros H; inversion H; subst.
    rewrite String.eqb_refl, !Nat.eqb_refl.
    destruct m2; [rewrite Nat.eqb_refl|]; reflexivity.
Qed.

Lemma pelem_eqb_spec (a b : pelem) : pelem_eqb a b = true <-> a = b.
Proof.
  destruct a as [x|p], b as [y|q]; simpl; split; intros H; try discriminate.
  - apply Nat.eqb_eq in H; subst; reflexivity.
  - inversion H; apply Nat.eqb_refl.
  - apply prop_eqb_spec in H; subst; reflexivity.
  - inversion H; apply prop_eqb_spec; reflexivity.
Qed.

Lemma path_eqb_spec (p q : path) : path_eqb p q = true <-> p = q.
Proof.
  revert q; induction p as [|a p IH]; intros [|b q]; simpl; split; intros H;
    try discriminate; try reflexivity.
  - apply andb_true_iff in H as [H1 H2].
    apply pelem_eqb_spec in H1; apply IH in H2; subst; reflexivity.
  - inversion H; subst. apply andb_true_iff; split.
    + apply pelem_eqb_spec; reflexivity.
    + apply IH; reflexivity.
Qed.

Lemma ckey_eqb_spec (a b : ckey) : ckey_eqb a b = true <-> a = b.
Proof.
  destruct a as [p1 k1], b as [p2 k2]; unfold ckey_eqb; simpl.
  rewrite andb_true_iff, path_eqb_spec, String.eqb_eq.
  split; [intros [-> ->]; reflexivity | intros H; inversion H; auto].
Qed.

Section DictFacts.
  Context {K V : Type} (K_eqb : K -> K -> bool).
  Hypothesis K_eqb_spec : forall a b, K_eqb a b = true <-> a = b.

Lemma K_eqb_false a b : a <> b -> K_eqb a b = false.
  Proof.
    intros H. destruct (K_eqb a b) eqn:E; [apply K_eqb_spec in E; contradiction|reflexivity].
  Qed.

Lemma dict_get_set_same (d : list (K * V)) k v :
    dict_get K_eqb (dict_set K_eqb d k v) k = Some v.
  Proof.
    induction d as [|[k' v'] d IH]; simpl.
    - assert (K_eqb k k = true) as -> by (apply K_eqb_spec; reflexivity); reflexivity.
    - destruct (K_eqb k' k) eqn:E; simpl; rewrite E; [reflexivity|exact IH].
  Qed.

Lemma dict_get_set_other (d : list (K * V)) k k' v :
    k' <> k -> dict_get K_eqb (dict_set K_eqb d k v) k' = dict_get K_eqb d k'.
  Proof.
    intros Hne. induction d as [|[k0 v0] d IH]; simpl.
    - rewrite (K_eqb_false k k') by congruence; reflexivity.
    - destruct (K_eqb k0 k) eqn:E; simpl.
      + apply K_eqb_spec in E; subst k0.
        rewrite (K_eqb_false k k') by congruence; reflexivity.
      + destruct (K_eqb k0 k'); [reflexivity|exact IH].
  Qed.

Lemma dict_get_not_in (e : list (K * V)) k :
    ~ In k (map fst e) -> dict_get K_eqb e k = None.
  Proof.
    induction e as [|[k0 v0] e IH]; simpl; intros H; [reflexivity|].
    rewrite (K_eqb_false k0 k) by tauto. apply IH; tauto.
  Qed.

Lemma dict_get_update (d e : list (K * V)) k :
    NoDup (map fst e) ->
    dict_get K_eqb (dict_update K_eqb d e) k =
      match dict_get K_eqb e k with Some v => Some v | None => dict_get K_eqb d k end.
  Proof.
    unfold dict_update. revert d.
    induction e as [|[k1 v1] e IH]; intros d Hnd; simpl; [reflexivity|].
    inversion Hnd as [|? ? Hnin Hnd']; subst. rewrite IH by exact Hnd'.
    destruct (K_eqb k1 k) eqn:E.
    - apply K_eqb_spec in E; subst k1.
      rewrite dict_get_not_in by exact Hnin. apply dict_get_set_same.
    - destruct (dict_get K_eqb e k); [reflexivity|].
      apply dict_get_set_other. intros Heq; subst. rewrite (proj2 (K_eqb_spec _ _) eq_refl) in E.
      discriminate.
  Qed.
End DictFacts.

Lemma nth_error_snoc {A} (l : list A) (x : A) : nth_error (l ++ [x]) (length l) = Some x.
Proof. rewrite nth_error_app2, Nat.sub_diag by lia; reflexivity. Qed.

Lemma nth_error_snoc_lt {A} (l : list A) (x : A) i :
  i < length l -> nth_error (l ++ [x]) i = nth_error l i.
Proof. intros H; apply nth_error_app1; exact H. Qed.

Lemma ctx_get_set_same (c : ctx) p k v : ctx_get (ctx_set c p k v) p k = Some v.
Proof. apply (dict_get_set_same ckey_eqb ckey_eqb_spec). Qed.

Lemma ctx_get_set_other_name (c : ctx) p p' k k' v :
  k' <> k -> ctx_get (ctx_set c p k v) p' k' = ctx_get c p' k'.
Proof.
  intros H. apply (dict_get_set_other ckey_eqb ckey_eqb_spec). congruence.
Qed.

(** ** C8: [Load.joined] with an explicit [innerjoin] *)

(** C8. For a bound [Load] and an attribute token that resolves from the
    option's path, [joined(attr, innerjoin=b)] gives an option whose path is
    the resolved path and whose strategy is the eager-join one, registered as
    ["loader"] at the parent path, and it records ["eager_join_type"] = [b]
    at the parent path when the new path's tip is an entity and at the path
    itself otherwise. *)
Theorem Load_joined_records_eager_join_type (attrs_of : nat -> list prop)
  (l : load) (t : utoken) (b : bool) (p : path) (c : ctx) :
  load_generate_path attrs_of (l_context l) (l_path l) t = Ok (p, c) ->
  exists l',
    load_joined attrs_of l t (Some b) = Ok l' /\
    l_path l' = p /\
    l_strategy l' = Some joined_strat /\
    ctx_get (l_context l') (path_parent p) "loader" = Some (VLoad p (Some joined_strat)) /\
    ctx_get (l_context l') (if has_entity p then path_parent p else p) "eager_join_type"
      = Some (VBool b).
Proof.
  intros H. unfold load_joined, load_set_strategy. rewrite H. simpl.
  eexists; split; [reflexivity|]. simpl.
  split; [reflexivity|]. split; [reflexivity|]. split.
  - rewrite ctx_get_set_other_name by discriminate. apply ctx_get_set_same.
  - apply ctx_get_set_same.
Qed.

Lemma Load_joined_records_eager_join_type_witness :
  load_generate_path demo_attrs [] [PEnt 1] (TStr "orders")
    = Ok ([PEnt 1; PProp user_orders; PEnt 2], []) /\
  exists l',
    load_joined demo_attrs (load_new 1) (TStr "orders") (Some true) = Ok l' /\
    l_path l' = [PEnt 1; PProp user_orders; PEnt 2] /\
    l_strategy l' = Some joined_strat /\
    ctx_get (l_context l') (path_parent [PEnt 1; PProp user_orders; PEnt 2]) "loader"
      = Some (VLoad [PEnt 1; PProp user_orders; PEnt 2] (Some joined_strat)) /\
    ctx_get (l_context l')
      (if has_entity [PEnt 1; PProp user_orders; PEnt 2]
       then path_parent [PEnt 1; PProp user_orders; PEnt 2]
       else [PEnt 1; PProp user_orders; PEnt 2]) "eager_join_type" = Some (VBool true).
Proof.
  split; [reflexivity|].
  apply (Load_joined_records_eager_join_type demo_attrs (load_new 1) (TStr "orders") true
           [PEnt 1; PProp user_orders; PEnt 2] []).
  reflexivity.
Defined.

(** ** C9: the string-token entity search *)

(** C9. Both [_find_entity_basestring] methods return the query's first
    mapper entity whatever the token is; only with no mapper entity do they
    differ by mode: in raise mode the "can't find property" argument error,
    in conditional mode [None]. *)
Theorem find_entity_basestring_returns_first (q : query) (raiseerr : bool) :
  match q_mapper_entities q with
  | e :: _ =>
      forall token,
        find_entity_basestring_u q token raiseerr = Ok (Some e) /\
        find_entity_basestring_p q token raiseerr = Ok (Some e)
  | [] =>
      forall token,
        if raiseerr then
          find_entity_basestring_u q token raiseerr
            = Raise (ArgumentError ("Query has only expression-based entities - can't find property named '" ++ token ++ "'.")) /\
          find_entity_basestring_p q token raiseerr
            = Raise (ArgumentError ("Query has only expression-based entities - can't find property named '" ++ token ++ "'."))
        else
          find_entity_basestring_u q token raiseerr = Ok None /\
          find_entity_basestring_p q token raiseerr = Ok None
  end.
Proof.
  unfold find_entity_basestring_u, find_entity_basestring_p.
  destruct (q_mapper_entities q) as [|e es]; intros token.
  - destruct raiseerr; split; reflexivity.
  - split; reflexivity.
Qed.

(** ** C10 and C6: RETURNING and return-defaults *)

(** C10. [s.returning(a).returning(b)] carries exactly the column list
    [b], every other attribute being that of [s]; the intermediate clone
    carries [a]; and [s] itself is left as it was. *)
Theorem returning_replaces_column_list (hp : sheap) (i : nat) (s : stmt)
  (a b : list nat) :
  nth_error hp i = Some s ->
  exists j hp1 k hp2,
    stmt_returning hp i a = Ok (j, hp1) /\
    stmt_returning hp1 j b = Ok (k, hp2) /\
    nth_error hp2 k = Some (mkStmt (s_kind s) (s_table_cols s) (s_parameters s)
                              (s_has_multi s) (s_select s) (Some b) (s_return_defaults s)) /\
    nth_error hp2 j = Some (mkStmt (s_kind s) (s_table_cols s) (s_parameters s)
                              (s_has_multi s) (s_select s) (Some a) (s_return_defaults s)) /\
    nth_error hp2 i = Some s.
Proof.
  intros H. assert (Hi : i < length hp) by (apply nth_error_Some; congruence).
  set (s1 := mkStmt (s_kind s) (s_table_cols s) (s_parameters s) (s_has_multi s)
                    (s_select s) (Some a) (s_return_defaults s)).
  set (s2 := mkStmt (s_kind s) (s_table_cols s) (s_parameters s) (s_has_multi s)
                    (s_select s) (Some b) (s_return_defaults s)).
  exists (length hp), (hp ++ [s1]), (length (hp ++ [s1])), ((hp ++ [s1]) ++ [s2]).
  unfold stmt_returning, generative. rewrite H, nth_error_snoc.
  split; [reflexivity|]. split; [reflexivity|].
  split; [|split].
  - apply nth_error_snoc.
  - rewrite nth_error_snoc_lt by (rewrite length_app; simpl; lia). apply nth_error_snoc.
  - rewrite !nth_error_snoc_lt by (try rewrite length_app; simpl; lia). exact H.
Qed.

Lemma returning_replaces_column_list_witness :
  nth_error [new_stmt KDelete ["a"]] 0 = Some (new_stmt KDelete ["a"]) /\
  exists j hp1 k hp2,
    stmt_returning [new_stmt KDelete ["a"]] 0 [1] = Ok (j, hp1) /\
    stmt_returning hp1 j [2] = Ok (k, hp2) /\
    nth_error hp2 k = Some (mkStmt KDelete ["a"] PyNone false None (Some [2]) (RDBool false)) /\
    nth_error hp2 j = Some (mkStmt KDelete ["a"] PyNone false None (Some [1]) (RDBool false)) /\
    nth_error hp2 0 = Some (new_stmt KDelete ["a"]).
Proof.
  split; [reflexivity|].
  exact (returning_replaces_column_list [new_stmt KDelete ["a"]] 0 (new_stmt KDelete ["a"])
           [1] [2] eq_refl).
Defined.

(** C6. On an [Insert] or [Update] statement, [returning(a)] and
    [return_defaults(b)] in either order give a statement carrying [a] as
    [_returning] and [b or True] as [_return_defaults], every other
    attribute being that of [s]: neither call touches the other's attribute.
    With no column, [return_defaults()] records [True]. *)
Theorem returning_return_defaults_independent (s : stmt) (a b : list nat) :
  s_kind s <> KDelete ->
  (exists s1,
    returning_body s a = Ok s1 /\
    return_defaults_body s1 b = Ok (mkStmt (s_kind s) (s_table_cols s) (s_parameters s)
                                     (s_has_multi s) (s_select s) (Some a) (rd_of b))) /\
  (exists s1,
    return_defaults_body s b = Ok s1 /\
    returning_body s1 a = Ok (mkStmt (s_kind s) (s_table_cols s) (s_parameters s)
                                (s_has_multi s) (s_select s) (Some a) (rd_of b))) /\
  return_defaults_body s [] = Ok (mkStmt (s_kind s) (s_table_cols s) (s_parameters s)
                                    (s_has_multi s) (s_select s) (s_returning s) (RDBool true)).
Proof.
  intros Hk. destruct s as [k cols params multi sel ret rd]; simpl in *.
  destruct k; [| |contradiction];
    (split; [|split]; [eexists; split; reflexivity | eexists; split; reflexivity | reflexivity]).
Qed.

Lemma returning_return_defaults_independent_witness :
  s_kind (new_stmt KInsert ["a"; "b"]) <> KDelete /\
  (exists s1,
    returning_body (new_stmt KInsert ["a"; "b"]) [1] = Ok s1 /\
    return_defaults_body s1 [] = Ok (mkStmt KInsert ["a"; "b"] PyNone false None (Some [1]) (rd_of []))) /\
  (exists s1,
    return_defaults_body (new_stmt KInsert ["a"; "b"]) [] = Ok s1 /\
    returning_body s1 [1] = Ok (mkStmt KInsert ["a"; "b"] PyNone false None (Some [1]) (rd_of []))) /\
  return_defaults_body (new_stmt KInsert ["a"; "b"]) []
    = Ok (mkStmt KInsert ["a"; "b"] PyNone false None None (RDBool true)).
Proof.
  split; [discriminate|].
  exact (returning_return_defaults_independent (new_stmt KInsert ["a"; "b"]) [1] []
           ltac:(discriminate)).
Defined.

(** C6, counterexample: [return_defaults] is a method of [ValuesBase] only;
    on a [Delete] statement the call fails with an attribute error, so the
    property does not hold for every statement builder. *)
Lemma return_defaults_absent_on_delete :
  return_defaults_body (new_stmt KDelete ["a"]) []
    = Raise (AttributeError "'Delete' object has no attribute 'return_defaults'").
Proof. reflexivity. Qed.

(** ** C5: [values()] called twice *)

Lemma process_single_dicts (cols : list string) (l : list pyobj) :
  Forall (fun x => is_dict x = true) l -> map (process_single cols) l = l.
Proof.
  induction 1 as [|x l Hx _ IH]; [reflexivity|].
  destruct x; try discriminate. simpl. rewrite IH. reflexivity.
Qed.

(** C5. Four facts about two successive [values()] calls, the second on
    the statement the first returns, starting from a statement with no
    values yet and no SELECT:
    - on an [Insert] or [Update], two single-row dictionaries merge key by
      key, the later call's keys winning on conflict;
    - on an [Insert], a non-empty list of rows after a single-row call raises
      the mixing error;
    - on an [Insert], two non-empty lists of dictionaries concatenate;
    - on an [Update], a list of rows is refused with the "does not support
      multiple parameter sets" error, whether the statement holds no values,
      a dict or a list (values of another type make [self.parameters.copy()]
      raise first). *)
Theorem values_merge_mix_concat :
  (forall s d1 d2,
     s_kind s <> KDelete -> s_parameters s = PyNone ->
     s_has_multi s = false -> s_select s = None -> NoDup (map fst d2) ->
     exists s1 e,
       values_body s [PyDict d1] [] = Ok s1 /\
       values_body s1 [PyDict d2] [] = Ok (with_params s (PyDict e) false) /\
       forall key, dict_get String.eqb e key =
         match dict_get String.eqb d2 key with
         | Some v => Some v
         | None => dict_get String.eqb d1 key
         end) /\
  (forall s d1 x l,
     s_kind s = KInsert -> s_parameters s = PyNone ->
     s_has_multi s = false -> s_select s = None -> is_row x = true ->
     exists s1,
       values_body s [PyDict d1] [] = Ok s1 /\
       values_body s1 [PyList (x :: l)] [] = Raise (ArgumentError mix_msg)) /\
  (forall s l1 l2,
     s_kind s = KInsert -> s_parameters s = PyNone ->
     s_has_multi s = false -> s_select s = None -> l1 <> [] -> l2 <> [] ->
     Forall (fun x => is_dict x = true) l1 -> Forall (fun x => is_dict x = true) l2 ->
     exists s1,
       values_body s [PyList l1] [] = Ok s1 /\
       values_body s1 [PyList l2] [] = Ok (with_params s (PyList (l1 ++ l2)) true)) /\
  (forall s x l,
     s_kind s = KUpdate -> s_select s = None -> is_row x = true ->
     (s_parameters s = PyNone \/ (exists d, s_parameters s = PyDict d) \/
      (exists r, s_parameters s = PyList r)) ->
     values_body s [PyList (x :: l)] [] = Raise (InvalidRequestError multi_msg)).
Proof.
  split; [|split; [|split]].
  - intros [k cols params multi sel ret rd] d1 d2 Hk Hp Hm Hs Hnd; simpl in *; subst.
    destruct k; [| |contradiction];
      do 2 eexists; (split; [reflexivity|]); (split; [reflexivity|]);
      intros key; exact (dict_get_update String.eqb String.eqb_eq d1 d2 key Hnd).
  - intros [k cols params multi sel ret rd] d1 x l Hk Hp Hm Hs Hx; simpl in *; subst.
    eexists. split; [reflexivity|]. simpl. destruct x; try discriminate; reflexivity.
  - intros [k cols params multi sel ret rd] l1 l2 Hk Hp Hm Hs H1 H2 Hd1 Hd2;
      simpl in *; subst.
    destruct l1 as [|x1 r1]; [contradiction|]. destruct l2 as [|x2 r2]; [contradiction|].
    pose proof (process_single_dicts cols _ Hd1) as E1.
    pose proof (process_single_dicts cols _ Hd2) as E2.
    inversion Hd1 as [|? ? Hx1 _]; inversion Hd2 as [|? ? Hx2 _]; subst.
    destruct x1; try discriminate. destruct x2; try discriminate.
    simpl in E1, E2. injection E1 as E1. injection E2 as E2.
    eexists. split; [unfold values_body; simpl; rewrite E1; reflexivity|].
    unfold values_body; simpl. rewrite E2. reflexivity.
  - intros [k cols params multi sel ret rd] x l Hk Hs Hx Hp; simpl in *; subst.
    destruct Hp as [->|[[d ->]|[r ->]]]; simpl;
      destruct x; try discriminate; try reflexivity; destruct multi; reflexivity.
Qed.

Lemma values_merge_mix_concat_witness :
  (exists s1 e,
     values_body (new_stmt KUpdate ["a"; "b"]) [PyDict [("a", PyInt 1)]] [] = Ok s1 /\
     values_body s1 [PyDict [("a", PyInt 2); ("b", PyInt 3)]] []
       = Ok (with_params (new_stmt KUpdate ["a"; "b"]) (PyDict e) false) /\
     forall key, dict_get String.eqb e key =
       match dict_get String.eqb [("a", PyInt 2); ("b", PyInt 3)] key with
       | Some v => Some v
       | None => dict_get String.eqb [("a", PyInt 1)] key
       end) /\
  (exists s1,
     values_body (new_stmt KInsert ["a"]) [PyDict [("a", PyInt 1)]] [] = Ok s1 /\
     values_body s1 [PyList [PyDict [("a", PyInt 2)]]] [] = Raise (ArgumentError mix_msg)) /\
  (exists s1,
     values_body (new_stmt KInsert ["a"]) [PyList [PyDict [("a", PyInt 1)]]] [] = Ok s1 /\
     values_body s1 [PyList [PyDict [("a", PyInt 2)]]] []
       = Ok (with_params (new_stmt KInsert ["a"])
               (PyList ([PyDict [("a", PyInt 1)]] ++ [PyDict [("a", PyInt 2)]])) true)) /\
  values_body (new_stmt KUpdate ["a"]) [PyList [PyDict [("a", PyInt 1)]]] []
    = Raise (InvalidRequestError multi_msg).
Proof.
  destruct values_merge_mix_concat as (P1 & P2 & P3 & P4).
  split; [|split; [|split]].
  - apply (P1 (new_stmt KUpdate ["a"; "b"])); try reflexivity; [discriminate|].
    repeat constructor; simpl; intuition discriminate.
  - apply (P2 (new_stmt KInsert ["a"])); reflexivity.
  - apply (P3 (new_stmt KInsert ["a"])); try reflexivity; try discriminate;
      repeat constructor.
  - apply (P4 (new_stmt KUpdate ["a"])); try reflexivity. left; reflexivity.
Defined.

(** C5, counterexample: on an [Update], [values({"a": 1})] followed by
    [values([{"a": 2}])] raises the "does not support multiple parameter
    sets" error, not the mixing error the property names. *)
Lemma values_list_after_dict_on_update :
  exists s1,
    values_body (new_stmt KUpdate ["a"]) [PyDict [("a", PyInt 1)]] [] = Ok s1 /\
    values_body s1 [PyList [PyDict [("a", PyInt 2)]]] []
      = Raise (InvalidRequestError multi_msg).
Proof. eexists. split; reflexivity. Qed.

(** ** C1: unbound options in a secondary load *)

(** C1. The unbound option [joinedload("orders.items")] processed against
    [query(Order)] run as the secondary load of [User.orders] (current path
    [User -> orders], which the option's first token matches) raises
    [TypeError] in both modes: [_bind_loader] calls [self._chop_path(...)]
    and [_chop_path] takes no [self]. No token is chopped and nothing is
    written. A property option fails earlier still, on the first line of
    [_process_paths]. *)
Theorem unbound_secondary_load_raises_type_error :
  match from_keys ["orders.items"] false None demo_empty_heap with
  | Ok (i, h) =>
      unbound_process_query demo_attrs demo_corresponds_to demo_searchfor h i
        demo_secondary_query
        = Raise (TypeError "_chop_path() takes 2 positional arguments but 3 were given") /\
      unbound_process_query_conditionally demo_attrs demo_corresponds_to demo_searchfor h i
        demo_secondary_query
        = Raise (TypeError "_chop_path() takes 2 positional arguments but 3 were given")
  | Raise _ => False
  end /\
  (forall rest pqp raiseerr,
     property_option_process rest pqp demo_secondary_query raiseerr
       = Raise (NameError "PathRegistry")).
Proof. split; [vm_compute; split; reflexivity | reflexivity]. Qed.

(** ** C3: raise mode and conditional mode *)

(** C3. Resolution failures are not turned into a no-op in conditional
    mode:
    - [joinedload("orders")] on a query with no mapper entity raises an
      argument error in raise mode, and in conditional mode fails on
      [None.entity_zero] with [AttributeError];
    - [_UnboundLoad().joined(Order.user)] on [query(User)] raises the
      argument error in conditional mode (the parameter of
      [_find_entity_prop_comparator] is named [conditional] and it raises
      when that is false, while the caller passes [raiseerr]) and fails
      with [AttributeError] in raise mode;
    - a property missing on the entity ([joinedload("nosuch")]) raises
      [KeyError] in both modes, not an argument error;
    - a property option raises [NameError] in both modes. *)
Theorem conditional_mode_raises :
  match from_keys ["orders"] false None demo_empty_heap with
  | Ok (i, h) =>
      (exists msg, unbound_process_query demo_attrs demo_corresponds_to demo_searchfor h i
                     demo_expr_query = Raise (ArgumentError msg)) /\
      unbound_process_query_conditionally demo_attrs demo_corresponds_to demo_searchfor h i
        demo_expr_query
        = Raise (AttributeError "'NoneType' object has no attribute 'entity_zero'")
  | Raise _ => False
  end /\
  match demo_unbound_joined (TAttr order_user_attr) with
  | Ok (i, h) =>
      unbound_process_query demo_attrs demo_corresponds_to demo_searchfor h i
        demo_user_query
        = Raise (AttributeError "'NoneType' object has no attribute 'entity_zero'") /\
      (exists msg, unbound_process_query_conditionally demo_attrs demo_corresponds_to
                     demo_searchfor h i demo_user_query = Raise (ArgumentError msg))
  | Raise _ => False
  end /\
  match from_keys ["nosuch"] false None demo_empty_heap with
  | Ok (i, h) =>
      unbound_process_query demo_attrs demo_corresponds_to demo_searchfor h i
        demo_user_query = Raise (KeyError "nosuch") /\
      unbound_process_query_conditionally demo_attrs demo_corresponds_to demo_searchfor h i
        demo_user_query = Raise (KeyError "nosuch")
  | Raise _ => False
  end /\
  (forall rest pqp q raiseerr,
     property_option_process rest pqp q raiseerr = Raise (NameError "PathRegistry")).
Proof.
  split; [|split; [|split]].
  - vm_compute. split; [eexists; reflexivity | reflexivity].
  - vm_compute. split; [reflexivity | eexists; reflexivity].
  - vm_compute. split; reflexivity.
  - reflexivity.
Qed.

(** ** C4: the wildcard key of [EagerLazyOption] *)

(** C4. Only the first token of the key is compared with ["*"]: with
    ["*"] first and another token the wildcard error is raised; with ["*"]
    after another token no wildcard error is raised; and with ["*"] alone
    the key is accepted, but the constructor then fails on the unbound name
    [properties], so no option is built, whatever [lazy], [chained] and
    [propagate_to_loaders] are. *)
Theorem eager_lazy_wildcard_position :
  forall lazy chained propagate,
    eager_lazy_option_init [TStr "*"; TStr "orders"] lazy chained propagate
      = Raise (ArgumentError "Wildcard identifier '*' must be specified alone.") /\
    eager_lazy_option_init [TStr "orders"; TStr "*"] lazy chained propagate
      = Raise (NameError "properties") /\
    eager_lazy_option_init [TStr "*"] lazy chained propagate
      = Raise (NameError "properties").
Proof. intros; repeat split; reflexivity. Qed.

(** ** C7: [contains_eager] after a polymorphic annotation *)

(** C7. With no alias and a [path_with_polymorphic] entry recorded at the
    last path, [LoadEagerFromAliasOption.process_query_property] raises
    [NameError] on [orm_util] (the method is not given it by
    [util.dependencies]), so no adapter is recorded. The method is not
    reached anyway: the option's processing fails in [_process_paths], and
    [contains_eager] itself fails on the unbound name [_strategies]. *)
Theorem contains_eager_polymorphic_adapter_unreachable :
  (forall adapters chained,
     leafo_process_query_property adapters None chained demo_poly_query
       [[PEnt 2; PProp order_user]] = Raise (NameError "orm_util")) /\
  (forall rest adapters raiseerr,
     property_option_process rest
       (fun q ps => leafo_process_query_property adapters None true q ps)
       demo_poly_query raiseerr = Raise (NameError "PathRegistry")) /\
  (forall keys, contains_eager keys false = Raise (NameError "_strategies")).
Proof.
  split; [|split].
  - intros adapters []; reflexivity.
  - reflexivity.
  - reflexivity.
Qed.

(** ** C2: the directives of [_from_keys] *)

(** *** The object store after [_from_keys] *)

Lemma replace_nth_snoc {A} (l : list A) (x y : A) :
  replace_nth (l ++ [x]) (length l) y = l ++ [y].
Proof. induction l as [|a l IH]; simpl; [reflexivity | rewrite IH; reflexivity]. Qed.

Lemma existsb_eqb_lt (n : nat) (S : list nat) :
  Forall (fun j => j < n) S -> existsb (Nat.eqb n) S = false.
Proof.
  induction 1 as [|j S Hj _ IH]; simpl; [reflexivity|].
  rewrite IH, orb_false_r. apply Nat.eqb_neq. lia.
Qed.

Lemma unbound_joined_step (X : list uload) (sets0 : list (list nat)) (S : list nat)
  (cur : nat) (p : list utoken) (st : option strat) (lo : list (string * cval))
  (t : utoken) (ij : option bool) :
  nth_error X cur = Some (mkU p st lo (length sets0)) ->
  Forall (fun j => j < length X) S ->
  unbound_joined (mkH X (sets0 ++ [S])) cur t ij =
    Ok (length X, mkH (X ++ [mkU (p ++ [t]) (Some joined_strat) (lopts ij) (length sets0)])
                      (sets0 ++ [S ++ [length X]])).
Proof.
  intros H HS.
  unfold unbound_joined, unbound_set_strategy, unbound_generate, get_obj, alloc_obj,
    put_obj, set_add, set_members.
  cbn [res_bind h_objs h_sets u_path u_strategy u_local_opts u_to_bind]. rewrite H. cbn [res_bind h_objs h_sets u_path u_strategy u_local_opts u_to_bind].
  rewrite nth_error_snoc. cbn [res_bind h_objs h_sets u_path u_strategy u_local_opts u_to_bind].
  rewrite replace_nth_snoc. cbn [res_bind h_objs h_sets u_path u_strategy u_local_opts u_to_bind].
  rewrite nth_middle, existsb_eqb_lt by exact HS.
  rewrite replace_nth_snoc.
  destruct ij as [b|]; [|reflexivity].
  unfold unbound_set_options, get_obj, put_obj. cbn [res_bind h_objs h_sets u_path u_strategy u_local_opts u_to_bind].
  rewrite nth_error_snoc. cbn [res_bind h_objs h_sets u_path u_strategy u_local_opts u_to_bind].
  rewrite replace_nth_snoc. reflexivity.
Qed.

Lemma unbound_default_step (X : list uload) (sets0 : list (list nat)) (S : list nat)
  (cur : nat) (p : list utoken) (st : option strat) (lo : list (string * cval))
  (t : utoken) :
  nth_error X cur = Some (mkU p st lo (length sets0)) ->
  unbound_default (mkH X (sets0 ++ [S])) cur t =
    Ok (length X, mkH (X ++ [mkU (p ++ [t]) None [] (length sets0)]) (sets0 ++ [S])).
Proof.
  intros H.
  unfold unbound_default, unbound_set_strategy, unbound_generate, get_obj, alloc_obj, put_obj.
  cbn [res_bind h_objs h_sets u_path u_strategy u_local_opts u_to_bind]. rewrite H. cbn [res_bind h_objs h_sets u_path u_strategy u_local_opts u_to_bind].
  rewrite nth_error_snoc. cbn [res_bind h_objs h_sets u_path u_strategy u_local_opts u_to_bind].
  rewrite replace_nth_snoc. reflexivity.
Qed.

Lemma length_chain_objs (p r : list utoken) st lo s :
  length (chain_objs p r st lo s) = length r.
Proof. revert p; induction r as [|t r IH]; intros p; simpl; [reflexivity | rewrite IH; reflexivity]. Qed.

Lemma nth_error_chain_objs (r p : list utoken) st lo s k :
  k < length r ->
  nth_error (chain_objs p r st lo s) k = Some (mkU (p ++ firstn (Datatypes.S k) r) st lo s).
Proof.
  revert p k; induction r as [|t r IH]; intros p k Hk; simpl in Hk; [lia|].
  destruct k as [|k]; simpl; [reflexivity|].
  rewrite IH by lia. rewrite <- app_assoc. reflexivity.
Qed.

Lemma fold_chain (chained : bool) (ij : option bool) (sets0 : list (list nat)) :
  forall (r : list utoken) (X : list uload) (S : list nat) (cur : nat) (p : list utoken)
         (st : option strat) (lo : list (string * cval)),
  nth_error X cur = Some (mkU p st lo (length sets0)) ->
  Forall (fun j => j < length X) S ->
  exists cur' st' lo',
    fold_res (fun st tok =>
                if chained then unbound_joined (snd st) (fst st) tok ij
                else unbound_default (snd st) (fst st) tok)
             r (cur, mkH X (sets0 ++ [S]))
    = Ok (cur', mkH (X ++ chain_objs p r (if chained then Some joined_strat else None)
                                       (if chained then lopts ij else []) (length sets0))
                    (sets0 ++ [S ++ (if chained then seq (length X) (length r) else [])])) /\
    nth_error (X ++ chain_objs p r (if chained then Some joined_strat else None)
                                   (if chained then lopts ij else []) (length sets0)) cur'
      = Some (mkU (p ++ r) st' lo' (length sets0)).
Proof.
  induction r as [|t r IH]; intros X S cur p st lo H HS.
  - exists cur, st, lo. simpl. rewrite !app_nil_r.
    destruct chained; rewrite ?app_nil_r; (split; [reflexivity | exact H]).
  - cbn [fold_res fst snd].
    destruct chained.
    + rewrite (unbound_joined_step X sets0 S cur p st lo t ij H HS). cbn [res_bind].
      destruct (IH (X ++ [mkU (p ++ [t]) (Some joined_strat) (lopts ij) (length sets0)])
                  (S ++ [length X]) (length X) (p ++ [t]) (Some joined_strat) (lopts ij))
        as (cur' & st' & lo' & E & Hn).
      * apply nth_error_snoc.
      * rewrite length_app. apply Forall_app. split.
        -- eapply Forall_impl; [|exact HS]. simpl; intros; lia.
        -- constructor; [simpl; lia | constructor].
      * exists cur', st', lo'. rewrite E, <- !app_assoc. cbn [app].
        rewrite length_app, Nat.add_1_r. cbn [seq]. rewrite <- !app_assoc in Hn.
        split; [reflexivity | exact Hn].
    + rewrite (unbound_default_step X sets0 S cur p st lo t H). cbn [res_bind].
      destruct (IH (X ++ [mkU (p ++ [t]) None [] (length sets0)])
                  S (length X) (p ++ [t]) None [])
        as (cur' & st' & lo' & E & Hn).
      * apply nth_error_snoc.
      * rewrite length_app. eapply Forall_impl; [|exact HS]. simpl; intros; lia.
      * exists cur', st', lo'. rewrite E, <- !app_assoc. cbn [app].
        rewrite <- !app_assoc in Hn. split; [reflexivity | exact Hn].
Qed.

Lemma Forall_seq_lt (a n : nat) : Forall (fun j => j < a + n) (seq a n).
Proof. apply Forall_forall. intros j Hj. apply in_seq in Hj. lia. Qed.

Lemma last_opt_snoc {A} (l : list A) (a : A) : last_opt (l ++ [a]) = Some a.
Proof. unfold last_opt. rewrite map_app. apply last_last. Qed.

(** [_from_keys] over the tokens [l' ++ [a]]: the fresh option, one option
    per leading token (joined when chained, [default] otherwise), and the
    joined option of the last token, which [_from_keys] returns; the
    [_to_bind] set holds the joined ones, in order. *)
Lemma from_keys_shape (keys : list string) (chained : bool) (ij : option bool) (h : heap)
  (l' : list utoken) (a : utoken) :
  map TStr (flat_map split_dot keys) = l' ++ [a] ->
  let s := length (h_sets h) in
  let X := h_objs h ++ [mkU [] None [] s] ++
           chain_objs [] l' (if chained then Some joined_strat else None)
                      (if chained then lopts ij else []) s in
  from_keys keys chained ij h =
    Ok (length X, mkH (X ++ [mkU (l' ++ [a]) (Some joined_strat) (lopts ij) s])
                      (h_sets h ++ [(if chained then seq (Datatypes.S (length (h_objs h))) (length l')
                                     else []) ++ [length X]])).
Proof.
  intros Hts s X. destruct h as [objs0 sets0]. cbn [h_objs h_sets] in s, X |- *.
  unfold from_keys, unbound_new, alloc_obj. cbn [h_objs h_sets].
  rewrite Hts, removelast_last, last_opt_snoc.
  destruct (fold_chain chained ij sets0 l' (objs0 ++ [mkU [] None [] (length sets0)]) []
              (length objs0) [] None [])
    as (cur' & st' & lo' & E & Hn).
  - apply nth_error_snoc.
  - constructor.
  - cbn [fst snd]. rewrite E. cbn [res_bind]. rewrite <- app_assoc in Hn.
    rewrite <- app_assoc in E.
    assert (HS : Forall (fun j => j < length X)
                   ([] ++ (if chained then seq (length (objs0 ++ [mkU [] None [] (length sets0)])) (length l') else []))).
    { destruct chained; [|constructor]. cbn [app].
      replace (length X) with (length (objs0 ++ [mkU [] None [] (length sets0)]) + length l').
      - apply Forall_seq_lt.
      - subst X s. rewrite !length_app, length_chain_objs. simpl. lia. }
    rewrite <- app_assoc.
    rewrite (unbound_joined_step X sets0 _ cur' ([] ++ l') st' lo' a ij) by (exact Hn || exact HS).
    f_equal. f_equal. f_equal. f_equal.
    destruct chained; cbn [app]; [|reflexivity].
    rewrite length_app, Nat.add_1_r. reflexivity.
Qed.

(** *** Replaying the tokens of one option *)

Lemma path_tip_snoc (p : path) (x : pelem) : path_tip (p ++ [x]) = Some x.
Proof. unfold path_tip. rewrite map_app. apply last_last. Qed.

(** A string token's path does not depend on the context it is replayed in. *)
Lemma load_generate_path_str_ctx (attrs_of : nat -> list prop) (c : ctx) (p : path)
  (t : string) :
  load_generate_path attrs_of c p (TStr t) =
    match load_generate_path attrs_of [] p (TStr t) with
    | Ok (p', _) => Ok (p', c)
    | Raise e => Raise e
    end.
Proof.
  unfold load_generate_path. cbn [res_bind].
  destruct (path_entity p) as [en|]; cbn [res_bind]; [|reflexivity].
  destruct (attrs_lookup attrs_of en t) as [pr|]; cbn [res_bind]; [|reflexivity].
  destruct (has_entity (p ++ [PProp pr])); [destruct (entity_path (p ++ [PProp pr]))|];
    reflexivity.
Qed.

Lemma walk_length (attrs_of : nat -> list prop) (strs : list string) :
  forall p ps, walk_trace attrs_of p strs = Ok ps -> length ps = length strs.
Proof.
  induction strs as [|t r IH]; intros p ps H; simpl in H.
  - injection H as <-. reflexivity.
  - destruct (load_generate_path attrs_of [] p (TStr t)) as [[p' c0]|]; cbn [res_bind] in H;
      [|discriminate].
    destruct (walk_trace attrs_of p' r) as [l|] eqn:E; cbn [res_bind] in H; [|discriminate].
    injection H as <-. simpl. rewrite (IH p' l E). reflexivity.
Qed.

(** The fold of [_bind_loader] over the first [k+1] tokens ends on the
    [k]-th path of the walk. *)
Lemma walk_fold (attrs_of : nat -> list prop) (strs : list string) :
  forall p ps, walk_trace attrs_of p strs = Ok ps ->
  forall k st c toks, toks = firstn (Datatypes.S k) (map TStr strs) -> k < length strs ->
  fold_res (fun l t =>
              let* (p, c') := load_generate_path attrs_of (l_context l) (l_path l) t in
              Ok (mkLoad p (l_strategy l) c'))
           toks (mkLoad p st c) = Ok (mkLoad (nth k ps []) st c).
Proof.
  induction strs as [|t r IH]; intros p ps H k st c toks -> Hk; simpl in Hk; [lia|].
  simpl in H.
  destruct (load_generate_path attrs_of [] p (TStr t)) as [[p' c0]|] eqn:E;
    cbn [res_bind] in H; [|discriminate].
  destruct (walk_trace attrs_of p' r) as [l|] eqn:E2; cbn [res_bind] in H; [|discriminate].
  injection H as <-.
  cbn [firstn map fold_res l_context l_path l_strategy].
  rewrite load_generate_path_str_ctx, E. cbn [res_bind].
  destruct k as [|k].
  - reflexivity.
  - apply (IH p' l E2 k st c); [reflexivity | lia].
Qed.

Lemma generate_key (attrs_of : nat -> list prop) (c : ctx) (p : path) (t : string)
  (p' : path) (c' : ctx) :
  load_generate_path attrs_of c p (TStr t) = Ok (p', c') ->
  exists pr, loader_key p' = p ++ [PProp pr].
Proof.
  unfold load_generate_path. cbn [res_bind]. intros H.
  destruct (path_entity p) as [en|]; cbn [res_bind] in H; [|discriminate].
  destruct (attrs_lookup attrs_of en t) as [pr|]; cbn [res_bind] in H; [|discriminate].
  exists pr.
  destruct (has_entity (p ++ [PProp pr])) eqn:He.
  - unfold entity_path in H. rewrite path_tip_snoc in H.
    destruct (prop_mapper pr) as [m|]; cbn [res_bind] in H; [|discriminate].
    injection H as <- _.
    unfold loader_key, has_entity. rewrite path_tip_snoc.
    unfold path_parent. rewrite removelast_last. reflexivity.
  - injection H as <- _. unfold loader_key. rewrite He. reflexivity.
Qed.

Lemma loader_key_prefix (p : path) : exists r, p = loader_key p ++ r.
Proof.
  unfold loader_key. destruct (has_entity p) eqn:E.
  - destruct p as [|x p']; [discriminate|].
    exists [last (x :: p') (PEnt 0)]. unfold path_parent.
    apply app_removelast_last. discriminate.
  - exists []. rewrite app_nil_r. reflexivity.
Qed.

Lemma loader_key_length (p : path) : length (loader_key p) <= length p.
Proof.
  destruct (loader_key_prefix p) as [r Hr]. rewrite Hr at 2. rewrite length_app. lia.
Qed.

Lemma walk_head (attrs_of : nat -> list prop) (p : path) (strs : list string)
  (q : path) (qs : list path) :
  walk_trace attrs_of p strs = Ok (q :: qs) -> exists pr, loader_key q = p ++ [PProp pr].
Proof.
  destruct strs as [|t r]; simpl; [discriminate|].
  destruct (load_generate_path attrs_of [] p (TStr t)) as [[p' c0]|] eqn:E;
    cbn [res_bind]; [|discriminate].
  destruct (walk_trace attrs_of p' r); cbn [res_bind]; [|discriminate].
  intros H; injection H as <- _. exact (generate_key _ _ _ _ _ _ E).
Qed.

(** Along a walk, each loader key strictly extends the previous one. *)
Lemma walk_keys (attrs_of : nat -> list prop) (strs : list string) :
  forall p ps, walk_trace attrs_of p strs = Ok ps ->
  Forall (fun q => length p < length (loader_key q)) ps /\
  NoDup (map loader_key ps) /\
  (forall k, Datatypes.S k < length ps ->
     exists ext, ext <> [] /\ loader_key (nth (Datatypes.S k) ps []) = loader_key (nth k ps []) ++ ext).
Proof.
  induction strs as [|t r IH]; intros p ps H; simpl in H.
  - injection H as <-. split; [constructor|]. split; [constructor|]. simpl; intros; lia.
  - destruct (load_generate_path attrs_of [] p (TStr t)) as [[p' c0]|] eqn:E;
      cbn [res_bind] in H; [|discriminate].
    destruct (walk_trace attrs_of p' r) as [l|] eqn:E2; cbn [res_bind] in H; [|discriminate].
    injection H as <-.
    destruct (IH p' l E2) as (HF & HN & HC).
    destruct (generate_key _ _ _ _ _ _ E) as [pr Hpr].
    pose proof (loader_key_length p') as Hlen.
    assert (Hp' : length (loader_key p') = length p + 1) by (rewrite Hpr, length_app; reflexivity).
    split; [|split].
    + constructor; [lia|]. eapply Forall_impl; [|exact HF]. simpl; intros; lia.
    + cbn [map]. constructor; [|exact HN].
      intros Hin. apply in_map_iff in Hin as (q & Hq & Hin).
      rewrite Forall_forall in HF. specialize (HF q Hin). rewrite Hq in HF. lia.
    + intros [|k] Hk; simpl in Hk.
      * destruct l as [|q qs]; simpl in Hk; [lia|].
        destruct (walk_head _ _ _ _ _ E2) as [pr' Hq].
        destruct (loader_key_prefix p') as [r0 Hr0].
        exists (r0 ++ [PProp pr']). split.
        -- intros Hn. apply app_eq_nil in Hn as [_ Hn]. discriminate.
        -- cbn [nth]. rewrite Hq, Hr0 at 1. rewrite <- app_assoc. reflexivity.
      * apply HC. lia.
Qed.

(** *** Binding the options of the [_to_bind] set *)

Lemma bind_loader_step (attrs_of : nat -> list prop)
  (corresponds_to : mapper_entity -> nat -> bool) (searchfor_of : nat -> nat)
  (q : query) (c : ctx) (raiseerr : bool) (e : mapper_entity) (es : list mapper_entity)
  (strs : list string) (ps : list path) (k : nat) (ij : option bool) (s : nat) :
  q_current_path q = [] -> q_mapper_entities q = e :: es ->
  walk_trace attrs_of [PEnt (me_entity_zero e)] strs = Ok ps -> k < length strs ->
  bind_loader attrs_of corresponds_to searchfor_of q c raiseerr
    (mkU (firstn (Datatypes.S k) (map TStr strs)) (Some joined_strat) (lopts ij) s)
  = Ok (fold_left (fun c kv => ctx_set c (loader_key (nth k ps [])) (fst kv) (snd kv))
                  (lopts ij)
                  (ctx_set c (loader_key (nth k ps [])) "loader"
                           (VLoad (nth k ps []) (Some joined_strat)))).
Proof.
  intros Hcur Hent Hw Hk.
  destruct strs as [|t r]; [simpl in Hk; lia|].
  unfold bind_loader. rewrite Hcur. cbn [u_path u_strategy u_local_opts firstn map].
  unfold find_entity_basestring_u. rewrite Hent. cbn [res_bind].
  rewrite (walk_fold attrs_of (t :: r) _ _ Hw k (Some joined_strat) c
             (TStr t :: firstn k (map TStr r)) eq_refl Hk).
  cbn [res_bind l_path l_strategy l_context].
  destruct ij; reflexivity.
Qed.

Lemma loader_entries_set_other (c : ctx) (p : path) (k : string) (v : cval) :
  k <> "loader" -> loader_entries (ctx_set c p k v) = loader_entries c.
Proof.
  intros Hk. unfold ctx_set, loader_entries.
  induction c as [|[[p' k'] v'] c IH]; simpl.
  - apply String.eqb_neq in Hk. rewrite Hk. reflexivity.
  - destruct (ckey_eqb (p', k') (p, k)) eqn:E.
    + apply ckey_eqb_spec in E. injection E as -> ->. simpl.
      apply String.eqb_neq in Hk. rewrite Hk. reflexivity.
    + simpl. rewrite IH. reflexivity.
Qed.

Lemma loader_entries_set_new (c : ctx) (p : path) (v : cval) :
  ~ In (p, "loader") (map fst c) ->
  loader_entries (ctx_set c p "loader" v) = loader_entries c ++ [((p, "loader"), v)].
Proof.
  unfold ctx_set, loader_entries.
  induction c as [|[[p' k'] v'] c IH]; simpl; intros Hn; [reflexivity|].
  destruct (ckey_eqb (p', k') (p, "loader")) eqn:E.
  - apply ckey_eqb_spec in E. exfalso. apply Hn. left. exact E.
  - simpl. rewrite IH by tauto. destruct (String.eqb k' "loader"); reflexivity.
Qed.

Lemma in_loader_entries (c : ctx) (p : path) :
  In (p, "loader") (map fst c) -> In (p, "loader") (map fst (loader_entries c)).
Proof.
  unfold loader_entries.
  induction c as [|[[p' k'] v'] c IH]; simpl; [tauto|].
  intros [E|H].
  - injection E as -> ->. simpl. left. reflexivity.
  - destruct (String.eqb k' "loader"); simpl; auto.
Qed.

Lemma loader_entries_lopts (c : ctx) (key : path) (ij : option bool) :
  loader_entries (fold_left (fun c kv => ctx_set c key (fst kv) (snd kv)) (lopts ij) c)
  = loader_entries c.
Proof. destruct ij; simpl; [apply loader_entries_set_other; discriminate | reflexivity]. Qed.

(** The loop of [_process]: each member adds its ["loader"] entry, at
    distinct keys. *)
Lemma bind_all_entries (attrs_of : nat -> list prop)
  (corresponds_to : mapper_entity -> nat -> bool) (searchfor_of : nat -> nat)
  (h : heap) (q : query) (raiseerr : bool) (ij : option bool) (P : nat -> path) :
  forall ms c,
  (forall j c', In j ms ->
     (let* o := get_obj h j in bind_loader attrs_of corresponds_to searchfor_of q c' raiseerr o)
     = Ok (fold_left (fun c kv => ctx_set c (loader_key (P j)) (fst kv) (snd kv)) (lopts ij)
                     (ctx_set c' (loader_key (P j)) "loader" (VLoad (P j) (Some joined_strat))))) ->
  NoDup (map (fun j => loader_key (P j)) ms) ->
  (forall j, In j ms -> ~ In (loader_key (P j), "loader") (map fst (loader_entries c))) ->
  exists c',
    fold_res (fun c i => let* o := get_obj h i in
                         bind_loader attrs_of corresponds_to searchfor_of q c raiseerr o) ms c
      = Ok c' /\
    loader_entries c' = loader_entries c ++ map (fun j => directive (P j)) ms.
Proof.
  induction ms as [|j ms IH]; intros c Hstep Hnd Hfresh.
  - exists c. rewrite app_nil_r. split; reflexivity.
  - cbn [fold_res]. rewrite (Hstep j c (or_introl eq_refl)). cbn [res_bind].
    set (c1 := fold_left _ _ _).
    assert (E1 : loader_entries c1 = loader_entries c ++ [directive (P j)]).
    { subst c1. rewrite loader_entries_lopts. apply loader_entries_set_new.
      intros Hin. apply (Hfresh j (or_introl eq_refl)). apply in_loader_entries. exact Hin. }
    inversion Hnd as [|? ? Hnin Hnd']; subst.
    destruct (IH c1) as (c' & E & Hc').
    + intros j' c' Hj'. apply Hstep. right. exact Hj'.
    + exact Hnd'.
    + intros j' Hj'. rewrite E1, map_app, in_app_iff. intros [Hin|Hin].
      * apply (Hfresh j' (or_intror Hj') Hin).
      * simpl in Hin. destruct Hin as [Hin|[]]. injection Hin as Hkey.
        apply Hnin. apply in_map_iff. exists j'. split; [symmetry; exact Hkey | exact Hj'].
    + exists c'. split; [exact E|]. rewrite Hc', E1, <- app_assoc. reflexivity.
Qed.

Lemma split_dot_aux_nonempty (s cur : string) : split_dot_aux s cur <> [].
Proof.
  revert cur; induction s as [|ch s IH]; intros cur; simpl; [discriminate|].
  destruct (Ascii.eqb ch "."%char); [discriminate | apply IH].
Qed.

Lemma flat_map_split_dot_nonempty (keys : list string) :
  keys <> [] -> flat_map split_dot keys <> [].
Proof.
  destruct keys as [|k ks]; [contradiction|]. intros _. simpl.
  intros H. apply app_eq_nil in H as [H _]. exact (split_dot_aux_nonempty k "" H).
Qed.

Lemma map_nth_seq {A} (l : list A) (d : A) :
  forall a, map (fun j => nth (j - a) l d) (seq a (length l)) = l.
Proof.
  induction l as [|x l IH]; intros a; [reflexivity|].
  cbn [length seq map]. rewrite Nat.sub_diag. f_equal.
  rewrite <- (IH (Datatypes.S a)) at 2. apply map_ext_in.
  intros j Hj. apply in_seq in Hj.
  replace (j - a) with (Datatypes.S (j - Datatypes.S a)) by lia. reflexivity.
Qed.

Lemma last_nth {A} (l : list A) (d : A) : l <> [] -> last l d = nth (length l - 1) l d.
Proof.
  induction l as [|x l IH]; intros H; [contradiction|].
  destruct l as [|y l]; [reflexivity|].
  change (last (x :: y :: l) d) with (last (y :: l) d).
  rewrite IH by discriminate. cbn [length]. replace (Datatypes.S (Datatypes.S (length l)) - 1)
    with (Datatypes.S (Datatypes.S (length l) - 1)) by lia. reflexivity.
Qed.

(** C2. Let the keys, split on dots, give N tokens that all resolve from
    the query's first entity (the walk gives the N paths [ps], one per
    token). Then the loader keys of [ps] are pairwise distinct, each one
    strictly extending the previous; [_from_keys] (with [joined] as the
    method) returns an option; and processing it against a query with an
    empty current path, taking the members of its [_to_bind] set in any
    order, writes as ["loader"] entries exactly one joined-eager directive
    per path of [ps] when [chained], and only the one of the full path
    otherwise. *)
Theorem from_keys_writes_prefix_directives (attrs_of : nat -> list prop)
  (corresponds_to : mapper_entity -> nat -> bool) (searchfor_of : nat -> nat)
  (keys : list string) (chained : bool) (innerjoin : option bool) (h : heap)
  (q : query) (e : mapper_entity) (es : list mapper_entity) (ps : list path)
  (raiseerr : bool) :
  keys <> [] ->
  q_mapper_entities q = e :: es ->
  q_current_path q = [] ->
  walk_trace attrs_of [PEnt (me_entity_zero e)] (flat_map split_dot keys) = Ok ps ->
  length ps = length (flat_map split_dot keys) /\
  NoDup (map loader_key ps) /\
  (forall k, Datatypes.S k < length ps ->
     exists ext, ext <> [] /\ loader_key (nth (Datatypes.S k) ps []) = loader_key (nth k ps []) ++ ext) /\
  exists i h1 o,
    from_keys keys chained innerjoin h = Ok (i, h1) /\
    get_obj h1 i = Ok o /\
    forall ms, Permutation ms (set_members h1 (u_to_bind o)) ->
      exists c,
        unbound_process_in attrs_of corresponds_to searchfor_of h1 ms q raiseerr
          = Ok (mkQ (q_mapper_entities q) (q_current_path q)
                    (dict_update ckey_eqb (q_attributes q) c)) /\
        Permutation (loader_entries c)
                    (map directive (if chained then ps else [last ps []])).
Proof.
  intros Hkeys Hent Hcur Hw.
  pose proof (walk_length _ _ _ _ Hw) as Hlen.
  destruct (walk_keys _ _ _ _ Hw) as (_ & HN & HC).
  split; [exact Hlen|]. split; [exact HN|]. split; [exact HC|].
  set (strs := flat_map split_dot keys) in *.
  assert (Hne : map TStr strs <> []).
  { intros H. apply map_eq_nil in H. exact (flat_map_split_dot_nonempty keys Hkeys H). }
  destruct (exists_last Hne) as (l' & a & Hts).
  assert (HN' : length strs = Datatypes.S (length l')).
  { rewrite <- (length_map TStr strs), Hts, length_app. simpl. lia. }
  pose proof (from_keys_shape keys chained innerjoin h l' a Hts) as Hfk.
  cbv zeta in Hfk.
  set (s := length (h_sets h)) in *.
  set (o := length (h_objs h)) in *.
  set (X := h_objs h ++ [mkU [] None [] s] ++
            chain_objs [] l' (if chained then Some joined_strat else None)
                       (if chained then lopts innerjoin else []) s) in *.
  assert (HX : length X = Datatypes.S o + length l').
  { subst X. rewrite !length_app, length_chain_objs. simpl. lia. }
  set (M := (if chained then seq (Datatypes.S o) (length l') else []) ++ [length X]).
  set (h1 := mkH (X ++ [mkU (l' ++ [a]) (Some joined_strat) (lopts innerjoin) s])
                 (h_sets h ++ [M])).
  exists (length X), h1, (mkU (l' ++ [a]) (Some joined_strat) (lopts innerjoin) s).
  split; [exact Hfk|].
  split; [unfold get_obj; cbn [h_objs h1]; rewrite nth_error_snoc; reflexivity|].
  intros ms Hperm.
  unfold set_members in Hperm. cbn [u_to_bind h_sets h1] in Hperm.
  assert (HM : nth s (h_sets h ++ [M]) [] = M) by (unfold s; apply nth_middle).
  rewrite HM in Hperm.
  set (P := fun j => nth (j - Datatypes.S o) ps []).
  (* every member is the option of a token prefix *)
  assert (Hobj : forall j, In j M ->
            exists k, k < length strs /\ j = Datatypes.S o + k /\
              get_obj h1 j = Ok (mkU (firstn (Datatypes.S k) (map TStr strs))
                                     (Some joined_strat) (lopts innerjoin) s)).
  { intros j Hj. subst M. apply in_app_iff in Hj as [Hj|Hj].
    - destruct chained; [|destruct Hj]. apply in_seq in Hj.
      exists (j - Datatypes.S o). split; [lia|]. split; [lia|].
      unfold get_obj. cbn [h_objs h1].
      rewrite nth_error_app1 by lia. subst X.
      rewrite nth_error_app2 by lia. fold o.
      replace (j - o) with (Datatypes.S (j - Datatypes.S o)) by lia. cbn [app nth_error].
      rewrite nth_error_chain_objs by lia. cbn [app]. rewrite Hts.
      rewrite firstn_app. replace (Datatypes.S (j - Datatypes.S o) - length l') with 0 by lia.
      cbn [firstn]. rewrite app_nil_r. reflexivity.
    - destruct Hj as [<-|[]].
      exists (length l'). split; [lia|]. split; [lia|].
      unfold get_obj. cbn [h_objs h1]. rewrite nth_error_snoc.
      rewrite Hts, firstn_all2 by (rewrite length_app; simpl; lia). reflexivity. }
  assert (HPM : map P M = if chained then ps else [last ps []]).
  { subst M P. destruct chained.
    - rewrite HX, <- seq_S, <- HN', <- Hlen. apply map_nth_seq.
    - cbn [app map]. rewrite last_nth.
      + f_equal. f_equal. lia.
      + intros E. rewrite E in Hlen. simpl in Hlen. lia. }
  destruct (bind_all_entries attrs_of corresponds_to searchfor_of h1 q raiseerr innerjoin P ms [])
    as (c & E & Hc).
  - intros j c' Hj.
    destruct (Hobj j (Permutation_in _ Hperm Hj)) as (k & Hk & -> & Hg).
    rewrite Hg. cbn [res_bind].
    subst P. cbv beta. replace (Datatypes.S o + k - Datatypes.S o) with k by lia.
    apply (bind_loader_step attrs_of corresponds_to searchfor_of q c' raiseerr e es strs ps
             k innerjoin s Hcur Hent Hw Hk).
  - apply (Permutation_NoDup (l := map loader_key (map P M))).
    + rewrite map_map. apply Permutation_map. apply Permutation_sym. exact Hperm.
    + rewrite HPM. destruct chained; [exact HN|]. constructor; [simpl; tauto | constructor].
  - intros j _. simpl. tauto.
  - exists c. split.
    + unfold unbound_process_in, unbound_bind_all. rewrite E. reflexivity.
    + rewrite Hc, <- HPM. cbn [loader_entries filter app].
      rewrite <- (map_map P directive). apply Permutation_map, Permutation_map. exact Hperm.
Qed.

Lemma from_keys_writes_prefix_directives_witness :
  (["orders.items.keywords"] <> [] /\
   q_mapper_entities demo_user_query = [mkME 1 1] /\
   q_current_path demo_user_query = [] /\
   walk_trace demo_attrs [PEnt (me_entity_zero (mkME 1 1))]
     (flat_map split_dot ["orders.items.keywords"]) = Ok demo_walk) /\
  (length demo_walk = length (flat_map split_dot ["orders.items.keywords"]) /\
   NoDup (map loader_key demo_walk) /\
   (forall k, Datatypes.S k < length demo_walk ->
      exists ext, ext <> [] /\
        loader_key (nth (Datatypes.S k) demo_walk []) = loader_key (nth k demo_walk []) ++ ext) /\
   exists i h1 o,
     from_keys ["orders.items.keywords"] true None demo_empty_heap = Ok (i, h1) /\
     get_obj h1 i = Ok o /\
     forall ms, Permutation ms (set_members h1 (u_to_bind o)) ->
       exists c,
         unbound_process_in demo_attrs demo_corresponds_to demo_searchfor h1 ms
           demo_user_query true
           = Ok (mkQ (q_mapper_entities demo_user_query) (q_current_path demo_user_query)
                     (dict_update ckey_eqb (q_attributes demo_user_query) c)) /\
         Permutation (loader_entries c)
                     (map directive (if true then demo_walk else [last demo_walk []]))).
Proof.
  split; [split; [discriminate | split; [reflexivity | split; reflexivity]]|].
  exact (from_keys_writes_prefix_directives demo_attrs demo_corresponds_to demo_searchfor
           ["orders.items.keywords"] true None demo_empty_heap demo_user_query (mkME 1 1) []
           demo_walk true ltac:(discriminate) eq_refl eq_refl eq_refl).
Defined.

(** * Further properties of the code *)

(** ** dml.py *)

(** X1. A positional row given as a tuple or list whose first element is
    not itself a row is one row: [values(row)] on a statement without
    values stores [zip(table.c, row)] as a dict, extra values being
    dropped. On an [Insert], a list of tuples is a list of such dicts, in
    order, and sets [_has_multi_parameters]. *)
Theorem values_rows_zip_table_columns :
  (forall s x l,
     s_kind s <> KDelete -> s_parameters s = PyNone -> s_select s = None ->
     is_row x = false ->
     values_body s [PyTuple (x :: l)] []
       = Ok (with_params s (PyDict (combine (s_table_cols s) (x :: l))) false) /\
     values_body s [PyList (x :: l)] []
       = Ok (with_params s (PyDict (combine (s_table_cols s) (x :: l))) false)) /\
  (forall s r rs,
     s_kind s = KInsert -> s_parameters s = PyNone -> s_select s = None ->
     values_body s [PyList (map PyTuple (r :: rs))] []
       = Ok (with_params s
               (PyList (map (fun row => PyDict (combine (s_table_cols s) row)) (r :: rs)))
               true)).
Proof.
  split.
  - intros [k cols params multi sel ret rd] x l Hk Hp Hs Hx; simpl in *; subst.
    unfold values_body; simpl.
    destruct k; [| |contradiction]; destruct multi; simpl; rewrite Hx; split; reflexivity.
  - intros [k cols params multi sel ret rd] r rs Hk Hp Hs; simpl in *; subst.
    unfold values_body; simpl. destruct multi; simpl; rewrite map_map; reflexivity.
Qed.

Lemma values_rows_zip_table_columns_witness :
  values_body (new_stmt KInsert ["a"; "b"]) [PyTuple [PyInt 1; PyInt 2; PyInt 3]] []
    = Ok (with_params (new_stmt KInsert ["a"; "b"])
            (PyDict (combine ["a"; "b"] [PyInt 1; PyInt 2; PyInt 3])) false) /\
  values_body (new_stmt KInsert ["a"; "b"])
    [PyList (map PyTuple [[PyInt 1; PyInt 2]; [PyInt 3]])] []
    = Ok (with_params (new_stmt KInsert ["a"; "b"])
            (PyList (map (fun row => PyDict (combine ["a"; "b"] row))
                         [[PyInt 1; PyInt 2]; [PyInt 3]])) true).
Proof.
  destruct values_rows_zip_table_columns as [P1 P2]. split.
  - exact (proj1 (P1 (new_stmt KInsert ["a"; "b"]) (PyInt 1) [PyInt 2; PyInt 3]
                   ltac:(discriminate) eq_refl eq_refl eq_refl)).
  - exact (P2 (new_stmt KInsert ["a"; "b"]) [PyInt 1; PyInt 2] [[PyInt 3]]
              eq_refl eq_refl eq_refl).
Defined.

(** X2. [values([])] and [values(())] raise [IndexError] on an [Insert] or
    [Update] that is not an INSERT from SELECT and holds no values, a dict
    or a list: [_process_colparams] reads [parameters[0]]. *)
Theorem values_empty_sequence_index_error (s : stmt) :
  s_kind s <> KDelete -> s_select s = None ->
  (s_parameters s = PyNone \/ (exists d, s_parameters s = PyDict d) \/
   (exists r, s_parameters s = PyList r)) ->
  values_body s [PyList []] [] = Raise IndexError /\
  values_body s [PyTuple []] [] = Raise IndexError.
Proof.
  intros Hk Hs Hp. destruct s as [k cols params multi sel ret rd]; simpl in *; subst.
  unfold values_body; simpl.
  destruct Hp as [->|[[d ->]|[r ->]]];
    destruct k; [| |contradiction| | |contradiction| | |contradiction];
    destruct multi; split; reflexivity.
Qed.

Lemma values_empty_sequence_index_error_witness :
  values_body (with_params (new_stmt KUpdate ["a"]) (PyDict [("a", PyInt 1)]) false)
    [PyList []] [] = Raise IndexError /\
  values_body (with_params (new_stmt KUpdate ["a"]) (PyDict [("a", PyInt 1)]) false)
    [PyTuple []] [] = Raise IndexError.
Proof.
  exact (values_empty_sequence_index_error
           (with_params (new_stmt KUpdate ["a"]) (PyDict [("a", PyInt 1)]) false)
           ltac:(discriminate) eq_refl (or_intror (or_introl (ex_intro _ _ eq_refl)))).
Defined.

(** X17. An [Insert] or [Update] whose values are a single value that is
    neither a dict nor a list (an int, a string or a tuple, as
    [Update(table, values=5)] stores) accepts no further [values()] call
    with at most one positional argument: [self.parameters.copy()] raises
    [AttributeError] before the argument is looked at. *)
Theorem values_copy_rejects_scalar_parameters (s : stmt) (args : list pyobj)
  (kwargs : list (string * pyobj)) :
  s_kind s <> KDelete -> s_select s = None -> s_has_multi s = false ->
  length args <= 1 ->
  ((exists n, s_parameters s = PyInt n) \/ (exists t, s_parameters s = PyStr t) \/
   (exists l, s_parameters s = PyTuple l)) ->
  exists msg, values_body s args kwargs = Raise (AttributeError msg).
Proof.
  intros Hk Hs Hm Hl Hp. destruct s as [k cols params multi sel ret rd]; simpl in *; subst.
  unfold values_body; simpl.
  destruct args as [|a [|b rest]]; [| |simpl in Hl; lia];
    destruct Hp as [[n ->]|[[t ->]|[l ->]]];
    destruct k; try contradiction; eexists; reflexivity.
Qed.

Lemma values_copy_rejects_scalar_parameters_witness :
  values_base_init KUpdate ["a"] (PyInt 5) None (RDBool false)
    = Ok (mkStmt KUpdate ["a"] (PyInt 5) false None None (RDBool false)) /\
  exists msg, values_body (mkStmt KUpdate ["a"] (PyInt 5) false None None (RDBool false))
                [PyDict [("a", PyInt 1)]] [] = Raise (AttributeError msg).
Proof.
  split; [reflexivity|].
  apply (values_copy_rejects_scalar_parameters
           (mkStmt KUpdate ["a"] (PyInt 5) false None None (RDBool false))
           [PyDict [("a", PyInt 1)]] []).
  - discriminate.
  - reflexivity.
  - reflexivity.
  - simpl; lia.
  - left; exists 5; reflexivity.
Defined.

(** X3. Keyword values and multiple parameter sets never combine: once a
    statement holds multiple parameter sets, any [values()] call with
    keywords raises; a list of rows passed together with keywords to an
    [Insert] without values raises; and more than one positional argument
    is refused. *)
Theorem values_keywords_and_multiple_rows_exclusive :
  (forall s args kw,
     s_kind s <> KDelete -> s_select s = None -> s_has_multi s = true -> kw <> [] ->
     values_body s args kw
       = Raise (InvalidRequestError "This construct already has multiple parameter sets.")) /\
  (forall s x l kw,
     s_kind s = KInsert -> s_parameters s = PyNone -> s_has_multi s = false ->
     s_select s = None -> is_row x = true -> kw <> [] ->
     values_body s [PyList (x :: l)] kw
       = Raise (ArgumentError "Can't pass kwargs and multiple parameter sets simultaenously")) /\
  (forall s a b rest kw,
     s_kind s <> KDelete -> s_select s = None -> s_has_multi s = false ->
     values_body s (a :: b :: rest) kw
       = Raise (ArgumentError "Only a single dictionary/tuple or list of dictionaries/tuples is accepted positionally.")).
Proof.
  split; [|split].
  - intros [k cols params multi sel ret rd] args kw Hk Hs Hm Hkw; simpl in *; subst.
    unfold values_body; simpl.
    destruct kw as [|kv kw]; [contradiction|].
    destruct k; [| |contradiction]; reflexivity.
  - intros [k cols params multi sel ret rd] x l kw Hk Hp Hm Hs Hx Hkw; simpl in *; subst.
    unfold values_body; simpl.
    destruct kw as [|kv kw]; [contradiction|]. simpl.
    destruct x; try discriminate; reflexivity.
  - intros [k cols params multi sel ret rd] a b rest kw Hk Hs Hm; simpl in *; subst.
    unfold values_body; simpl.
    destruct k; [| |contradiction]; reflexivity.
Qed.

Lemma values_keywords_and_multiple_rows_exclusive_witness :
  values_body (with_params (new_stmt KInsert ["a"]) (PyList [PyDict [("a", PyInt 1)]]) true)
    [] [("a", PyInt 2)]
    = Raise (InvalidRequestError "This construct already has multiple parameter sets.") /\
  values_body (new_stmt KInsert ["a"]) [PyList [PyDict [("a", PyInt 1)]]] [("a", PyInt 2)]
    = Raise (ArgumentError "Can't pass kwargs and multiple parameter sets simultaenously") /\
  values_body (new_stmt KUpdate ["a"]) [PyDict []; PyDict []] []
    = Raise (ArgumentError "Only a single dictionary/tuple or list of dictionaries/tuples is accepted positionally.").
Proof.
  destruct values_keywords_and_multiple_rows_exclusive as (P1 & P2 & P3).
  split; [|split].
  - apply P1; [discriminate | reflexivity | reflexivity | discriminate].
  - apply P2; [reflexivity | reflexivity | reflexivity | reflexivity | reflexivity | discriminate].
  - apply P3; [discriminate | reflexivity | reflexivity].
Defined.

(** X4. Passing [values=v] to the [Insert] or [Update] constructor gives
    the statement that [values(v)] gives on the same statement built
    without values, errors included; in particular [Update(table,
    values=[...rows...])] raises at construction. *)
Theorem constructor_values_as_values_call (k : stmt_kind) (cols : list string)
  (v : pyobj) (returning : option (list nat)) (return_defaults : rdval) :
  k <> KDelete ->
  values_base_init k cols v returning return_defaults
    = values_body (mkStmt k cols PyNone false None returning return_defaults) [v] [].
Proof.
  intros Hk. unfold values_base_init, values_body; simpl.
  destruct k; [| |contradiction];
    destruct (process_colparams _ v) as [[p m]|e]; reflexivity.
Qed.

Lemma constructor_values_as_values_call_witness :
  values_base_init KUpdate ["a"] (PyList [PyDict [("a", PyInt 1)]]) None (RDBool false)
    = values_body (new_stmt KUpdate ["a"]) [PyList [PyDict [("a", PyInt 1)]]] [] /\
  values_body (new_stmt KUpdate ["a"]) [PyList [PyDict [("a", PyInt 1)]]] []
    = Raise (InvalidRequestError multi_msg).
Proof.
  split; [|reflexivity].
  exact (constructor_values_as_values_call KUpdate ["a"] (PyList [PyDict [("a", PyInt 1)]])
           None (RDBool false) ltac:(discriminate)).
Defined.

(** X5. [Insert.from_select(names, sel)] is accepted exactly when the
    statement's parameters are falsy (no values, or an empty dict or list):
    it then stores one key per name and the SELECT, without multiple
    parameter sets; otherwise it raises. Once a statement inserts from a
    SELECT, every [values()] call raises. *)
Theorem from_select_protocol :
  (forall s names sel,
     s_kind s = KInsert -> py_truthy (s_parameters s) = false ->
     from_select_body s names sel
       = Ok (mkStmt KInsert (s_table_cols s) (PyDict (null_params names)) false (Some sel)
                    (s_returning s) (s_return_defaults s))) /\
  (forall s names sel,
     s_kind s = KInsert -> py_truthy (s_parameters s) = true ->
     from_select_body s names sel
       = Raise (InvalidRequestError "This construct already inserts value expressions")) /\
  (forall s args kw sel,
     s_kind s <> KDelete -> s_select s = Some sel ->
     values_body s args kw
       = Raise (InvalidRequestError "This construct already inserts from a SELECT")).
Proof.
  split; [|split].
  - intros [k cols params multi sel0 ret rd] names sel Hk Ht; simpl in *; subst.
    unfold from_select_body; simpl. rewrite Ht. reflexivity.
  - intros [k cols params multi sel0 ret rd] names sel Hk Ht; simpl in *; subst.
    unfold from_select_body; simpl. rewrite Ht. reflexivity.
  - intros [k cols params multi sel0 ret rd] args kw sel Hk Hs; simpl in *; subst.
    unfold values_body; simpl. destruct k; [| |contradiction]; reflexivity.
Qed.

Lemma from_select_protocol_witness :
  (exists s1,
     values_body (new_stmt KInsert ["a"; "b"]) [PyDict []] [] = Ok s1 /\
     from_select_body s1 ["a"; "b"] 7
       = Ok (mkStmt KInsert ["a"; "b"] (PyDict (null_params ["a"; "b"])) false (Some 7)
                    None (RDBool false))) /\
  from_select_body (with_params (new_stmt KInsert ["a"]) (PyDict [("a", PyInt 1)]) false)
    ["a"] 7
    = Raise (InvalidRequestError "This construct already inserts value expressions") /\
  values_body (mkStmt KInsert ["a"] (PyDict (null_params ["a"])) false (Some 7) None
                      (RDBool false)) [PyDict [("a", PyInt 1)]] []
    = Raise (InvalidRequestError "This construct already inserts from a SELECT").
Proof.
  destruct from_select_protocol as (P1 & P2 & P3).
  split; [|split].
  - eexists. split; [reflexivity|].
    exact (P1 (with_params (new_stmt KInsert ["a"; "b"]) (PyDict []) false)
              ["a"; "b"] 7 eq_refl eq_refl).
  - apply P2; reflexivity.
  - apply (P3 _ _ _ 7); [discriminate | reflexivity].
Defined.

(** X6. [Insert._copy_internals] cannot copy an [Insert] built without
    values: [self.parameters] is [None], which has no [copy]. After
    [values()] with a dict it copies the statement, cloning its SELECT. *)
Theorem insert_copy_internals_needs_values (clone_select : nat -> nat) (cols : list string) :
  insert_copy_internals clone_select (new_stmt KInsert cols)
    = Raise (AttributeError "'NoneType' object has no attribute 'copy'") /\
  forall d s1,
    values_body (new_stmt KInsert cols) [PyDict d] [] = Ok s1 ->
    insert_copy_internals clone_select s1 = Ok s1.
Proof.
  split; [reflexivity|].
  intros d s1 H. unfold values_body in H; simpl in H. injection H as <-. reflexivity.
Qed.

Lemma existsb_seen_iff (l seen : list nat) :
  existsb (fun x => existsb (Nat.eqb x) seen) l = true <-> exists y, In y l /\ In y seen.
Proof.
  rewrite existsb_exists. split.
  - intros (y & Hy & H). apply existsb_exists in H as (z & Hz & E).
    apply Nat.eqb_eq in E; subst. eauto.
  - intros (y & Hy & Hs). exists y. split; [exact Hy|].
    apply existsb_exists. exists y. split; [exact Hs | apply Nat.eqb_refl].
Qed.

Lemma extra_froms_fold (cloned_set : nat -> list nat) (its : list nat) :
  forall fr seen, exists R,
    fst (fold_left
           (fun (st : list nat * list nat) item =>
              let (froms, seen) := st in
              (if existsb (fun x => existsb (Nat.eqb x) seen) (cloned_set item)
               then froms else froms ++ [item],
               seen ++ cloned_set item))
           its (fr, seen)) = fr ++ R /\
    (forall x, In x R <-> exists k, nth_error its k = Some x /\
        forall y, In y (cloned_set x) -> ~ In y (seen ++ concat (map cloned_set (firstn k its)))) /\
    ((forall i, In i (cloned_set i)) -> NoDup R /\ forall x, In x R -> ~ In x seen).
Proof.
  induction its as [|item its IH]; intros fr seen.
  - exists []. simpl. rewrite app_nil_r. split; [reflexivity|]. split.
    + intros x; split; [intros []|]. intros ([|k] & H & _); discriminate.
    + intros _; split; [constructor | intros x []].
  - simpl.
    set (hit := existsb (fun x => existsb (Nat.eqb x) seen) (cloned_set item)).
    destruct (IH (if hit then fr else fr ++ [item]) (seen ++ cloned_set item))
      as (R' & Heq & Hiff & Hnd).
    exists (if hit then R' else item :: R'). split; [|split].
    + rewrite Heq. destruct hit; [reflexivity|]. rewrite <- app_assoc. reflexivity.
    + intros x. split.
      * intros Hx.
        assert (Hx' : (hit = false /\ x = item) \/ In x R')
          by (destruct hit; [right; exact Hx | destruct Hx as [<-|Hx]; [left; auto | right; exact Hx]]).
        destruct Hx' as [[Hh <-]|Hx'].
        -- exists 0. split; [reflexivity|]. simpl. rewrite app_nil_r.
           intros y Hy Hs. assert (hit = true) as Ht
             by (apply existsb_seen_iff; eauto). congruence.
        -- apply Hiff in Hx' as (k & Hk & Hd). exists (S k). split; [exact Hk|].
           simpl. rewrite app_assoc. exact Hd.
      * intros ([|k] & Hk & Hd).
        -- simpl in Hk. injection Hk as <-. simpl in Hd. rewrite app_nil_r in Hd.
           destruct hit eqn:Ht; [|left; reflexivity].
           apply existsb_seen_iff in Ht as (y & Hy & Hs). exfalso; exact (Hd y Hy Hs).
        -- assert (In x R').
           { apply Hiff. exists k. split; [exact Hk|]. simpl in Hd. rewrite <- app_assoc. exact Hd. }
           destruct hit; [assumption | right; assumption].
    + intros Hself. destruct (Hnd Hself) as [HndR Hnin]. split.
      * destruct hit; [exact HndR|]. constructor; [|exact HndR].
        intros Hin. apply (Hnin item Hin). apply in_or_app. right. apply Hself.
      * intros x Hx Hs.
        destruct hit eqn:Ht.
        -- apply (Hnin x Hx). apply in_or_app. left. exact Hs.
        -- destruct Hx as [<-|Hx].
           ++ assert (hit = true) as Ht' by (apply existsb_seen_iff; exists item; split; [apply Hself | exact Hs]).
              congruence.
           ++ apply (Hnin x Hx). apply in_or_app. left. exact Hs.
Qed.

(** X7. [Update._extra_froms] keeps an element of the WHERE clause's FROM
    list exactly when its cloned set meets neither the target table nor the
    cloned set of any element before it in that list. When every element
    is in its own cloned set, the result has no duplicates and never
    contains the table. *)
Theorem extra_froms_first_unseen (cloned_set : nat -> list nat) (table : nat)
  (its : list nat) :
  (forall x, In x (extra_froms cloned_set table (Some its)) <->
     exists k, nth_error its k = Some x /\
       forall y, In y (cloned_set x) ->
         ~ In y (table :: concat (map cloned_set (firstn k its)))) /\
  ((forall i, In i (cloned_set i)) ->
     NoDup (extra_froms cloned_set table (Some its)) /\
     ~ In table (extra_froms cloned_set table (Some its))).
Proof.
  destruct (extra_froms_fold cloned_set its [] [table]) as (R & Heq & Hiff & Hnd).
  unfold extra_froms. rewrite Heq. simpl. split.
  - exact Hiff.
  - intros Hself. destruct (Hnd Hself) as [HndR Hnin]. split; [exact HndR|].
    intros Hin. apply (Hnin table Hin). left. reflexivity.
Qed.

(** X8. [_UnboundLoad._chop_path] never chops: when [to_chop] or the
    pairs of [path] are empty it returns [to_chop] whole, and otherwise the
    first comparison raises [AttributeError], from [c_token.property] on a
    string token or from [p_prop.property] on the pair's [MapperProperty]. *)
Theorem chop_path_never_chops (to_chop : list utoken) (pairs : list (nat * prop)) :
  ((to_chop = [] \/ pairs = []) -> chop_path to_chop pairs = Ok to_chop) /\
  (to_chop <> [] -> pairs <> [] ->
   exists msg, chop_path to_chop pairs = Raise (AttributeError msg)).
Proof.
  split.
  - intros [H | H]; subst; [reflexivity|].
    unfold chop_path. destruct to_chop; reflexivity.
  - intros H1 H2. destruct to_chop as [|t ts]; [contradiction|].
    destruct pairs as [|[m pr] ps]; [contradiction|].
    unfold chop_path, p_property; simpl.
    destruct t; simpl; [eexists; reflexivity|].
    unfold p_property. destruct (prop_mapper pr); eexists; reflexivity.
Qed.

Lemma chop_path_never_chops_witness :
  exists msg,
    chop_path (map TAttr [mkAttr user_orders 1 None; mkAttr order_items 2 None])
      [(1, user_orders); (2, order_items)] = Raise (AttributeError msg).
Proof.
  apply (proj2 (chop_path_never_chops
                  (map TAttr [mkAttr user_orders 1 None; mkAttr order_items 2 None])
                  [(1, user_orders); (2, order_items)])); discriminate.
Defined.

Lemma setstate_key_acc (parentmapper_class : attr -> nat)
  (class_getattr : nat -> string -> res utoken) (key : list utoken) :
  (forall a, In (TAttr a) key ->
     class_getattr (parentmapper_class a) (prop_key (attr_prop a)) = Ok (TAttr a)) ->
  forall acc,
    fold_res (fun ret k =>
                match k with
                | SPair cls propkey =>
                    let* v := class_getattr cls propkey in Ok (ret ++ [v])
                | SToken s => Ok (ret ++ [TStr s])
                end) (getstate_key parentmapper_class key) acc = Ok (acc ++ key).
Proof.
  induction key as [|t key IH]; intros Hcls acc; simpl.
  - rewrite app_nil_r. reflexivity.
  - destruct t as [s|a]; simpl.
    + rewrite IH by (intros a Ha; apply Hcls; right; exact Ha).
      rewrite <- app_assoc. reflexivity.
    + rewrite (Hcls a (or_introl eq_refl)). simpl.
      rewrite IH by (intros a' Ha; apply Hcls; right; exact Ha).
      rewrite <- app_assoc. reflexivity.
Qed.

(** X9. Pickling a property option's key and unpickling it gives the key
    back when, for every class-bound attribute [attr] of the key,
    [getattr(attr._parentmapper.class_, attr.key)] is that attribute;
    string tokens always come back unchanged. *)
Theorem getstate_setstate_key_round_trip (parentmapper_class : attr -> nat)
  (class_getattr : nat -> string -> res utoken) (key : list utoken) :
  (forall a, In (TAttr a) key ->
     class_getattr (parentmapper_class a) (prop_key (attr_prop a)) = Ok (TAttr a)) ->
  setstate_key class_getattr (getstate_key parentmapper_class key) = Ok key.
Proof.
  intros Hcls. unfold setstate_key.
  exact (setstate_key_acc parentmapper_class class_getattr key Hcls []).
Qed.

Lemma getstate_setstate_key_round_trip_witness :
  (forall a, In (TAttr a) [TAttr (mkAttr user_orders 1 None); TStr "items"] ->
     demo_class_getattr (attr_parententity a) (prop_key (attr_prop a)) = Ok (TAttr a)) /\
  setstate_key demo_class_getattr
    (getstate_key attr_parententity [TAttr (mkAttr user_orders 1 None); TStr "items"])
    = Ok [TAttr (mkAttr user_orders 1 None); TStr "items"].
Proof.
  assert (H : forall a, In (TAttr a) [TAttr (mkAttr user_orders 1 None); TStr "items"] ->
     demo_class_getattr (attr_parententity a) (prop_key (attr_prop a)) = Ok (TAttr a)).
  { intros a [Ha|[Ha|[]]]; [injection Ha as <-; reflexivity | discriminate]. }
  split; [exact H|].
  exact (getstate_setstate_key_round_trip attr_parententity demo_class_getattr _ H).
Defined.

(** X10. None of the module-level option functions can return: [eagerload]
    and [eagerload_all] call [joinedload] and [joinedload_all], and the
    others, [contains_eager] included, read [_strategies] (or [exc] for
    invalid keywords); the module binds none of these names, so each call
    raises [NameError], whatever its arguments. *)
Theorem module_option_functions_raise_name_error (opt : Type)
  (joinedload_call : list utoken -> option bool -> res opt)
  (strategies_EagerLazyOption : list utoken -> lazy_arg -> bool -> res opt)
  (strategies_DeferredOption : list utoken -> bool -> res opt)
  (strategies_UndeferGroupOption : string -> res opt)
  (keys : list utoken) (innerjoin : option bool) (name : string) (other_kwargs : bool) :
  eagerload opt joinedload_call keys innerjoin = Raise (NameError "joinedload") /\
  eagerload_all opt joinedload_call keys innerjoin = Raise (NameError "joinedload_all") /\
  subqueryload opt strategies_EagerLazyOption keys = Raise (NameError "_strategies") /\
  subqueryload_all opt strategies_EagerLazyOption keys = Raise (NameError "_strategies") /\
  lazyload opt strategies_EagerLazyOption keys = Raise (NameError "_strategies") /\
  lazyload_all opt strategies_EagerLazyOption keys = Raise (NameError "_strategies") /\
  noload opt strategies_EagerLazyOption keys = Raise (NameError "_strategies") /\
  immediateload opt strategies_EagerLazyOption keys = Raise (NameError "_strategies") /\
  defer opt strategies_DeferredOption keys = Raise (NameError "_strategies") /\
  undefer opt strategies_DeferredOption keys = Raise (NameError "_strategies") /\
  undefer_group opt strategies_UndeferGroupOption name = Raise (NameError "_strategies") /\
  contains_eager keys other_kwargs
    = Raise (NameError (if other_kwargs then "exc" else "_strategies")).
Proof.
  repeat split; destruct other_kwargs; reflexivity.
Qed.

Lemma length_replace_nth {A} (l : list A) i x : length (replace_nth l i x) = length l.
Proof. revert i; induction l as [|y l IH]; intros [|i]; simpl; auto. Qed.

Lemma nth_replace_nth_same {A} (l : list A) i x d :
  i < length l -> nth i (replace_nth l i x) d = x.
Proof.
  revert i; induction l as [|y l IH]; intros [|i] H; simpl in *; try lia; auto.
  all: apply IH; lia.
Qed.

Lemma nth_replace_nth_other {A} (l : list A) i j x d :
  j <> i -> nth j (replace_nth l i x) d = nth j l d.
Proof.
  revert i j; induction l as [|y l IH]; intros [|i] [|j] H; simpl; try reflexivity; try lia.
  apply IH; lia.
Qed.

Lemma replace_nth_twice {A} (l : list A) i x y :
  replace_nth (replace_nth l i x) i y = replace_nth l i y.
Proof. revert i; induction l as [|z l IH]; intros [|i]; simpl; f_equal; auto. Qed.

Lemma replace_nth_nth {A} (l : list A) i d :
  i < length l -> replace_nth l i (nth i l d) = l.
Proof.
  revert i; induction l as [|y l IH]; intros [|i] H; simpl in *; try lia; try reflexivity.
  f_equal; apply IH; lia.
Qed.

Lemma nth_error_app_lt {A} (l r : list A) i x :
  nth_error l i = Some x -> nth_error (l ++ r) i = Some x.
Proof.
  intros H. rewrite nth_error_app1; [exact H|]. apply nth_error_Some. congruence.
Qed.

Lemma Forall_lt_weaken (n m : nat) (l : list nat) :
  n <= m -> Forall (fun j => j < n) l -> Forall (fun j => j < m) l.
Proof. intros Hle H. eapply Forall_impl; [|exact H]. intros j Hj; simpl in Hj; lia. Qed.

(** X11. Setting a strategy on an unbound option ([_set_strategy], behind
    [joined] and [default]) leaves the option itself unchanged and returns
    a new option whose path is one token longer, sharing the original's
    [_to_bind] set; when the strategy is not [None] the new option is added
    to that shared set, so processing the original option binds it too. *)
Theorem unbound_set_strategy_shares_to_bind (h : heap) (i : nat) (o : uload)
  (t : utoken) (st : option strat) :
  get_obj h i = Ok o ->
  u_to_bind o < length (h_sets h) ->
  Forall (fun j => j < length (h_objs h)) (set_members h (u_to_bind o)) ->
  exists h',
    unbound_set_strategy h i t st = Ok (length (h_objs h), h') /\
    get_obj h' i = Ok o /\
    get_obj h' (length (h_objs h)) = Ok (mkU (u_path o ++ [t]) st [] (u_to_bind o)) /\
    set_members h' (u_to_bind o)
      = set_members h (u_to_bind o)
          ++ match st with Some _ => [length (h_objs h)] | None => [] end /\
    (forall s, s <> u_to_bind o -> set_members h' s = set_members h s).
Proof.
  intros Hi Hs HF. destruct h as [X sets]. simpl in Hs, HF |- *.
  unfold get_obj in Hi; simpl in Hi.
  destruct (nth_error X i) as [o0|] eqn:E; [injection Hi as ->|discriminate].
  unfold unbound_set_strategy, unbound_generate, get_obj.
  cbn [res_bind h_objs h_sets u_path u_strategy u_local_opts u_to_bind]. rewrite E.
  unfold alloc_obj. cbn [res_bind h_objs h_sets u_path u_strategy u_local_opts u_to_bind].
  rewrite nth_error_snoc. cbn [res_bind h_objs h_sets u_path u_strategy u_local_opts u_to_bind].
  unfold put_obj. cbn [res_bind h_objs h_sets u_path u_strategy u_local_opts u_to_bind].
  rewrite replace_nth_snoc.
  destruct st as [sv|].
  - unfold set_add, set_members. cbn [h_objs h_sets u_to_bind].
    unfold set_members in HF. cbn [h_sets] in HF.
    rewrite existsb_eqb_lt by exact HF.
    eexists. split; [reflexivity|]. cbn [h_objs h_sets].
    split; [rewrite (nth_error_app_lt _ _ _ _ E); reflexivity|].
    split; [rewrite nth_error_snoc; reflexivity|].
    split; [apply nth_replace_nth_same; exact Hs|].
    intros s' Hne. apply nth_replace_nth_other. exact Hne.
  - eexists. split; [reflexivity|]. cbn [h_objs h_sets].
    split; [rewrite (nth_error_app_lt _ _ _ _ E); reflexivity|].
    split; [rewrite nth_error_snoc; reflexivity|].
    split; [unfold set_members; simpl; rewrite app_nil_r; reflexivity|].
    intros s' _. reflexivity.
Qed.

Lemma unbound_set_strategy_shares_to_bind_witness :
  exists h',
    unbound_set_strategy (mkH [mkU [] None [] 0] [[]]) 0 (TStr "orders") (Some joined_strat)
      = Ok (1, h') /\
    get_obj h' 0 = Ok (mkU [] None [] 0) /\
    get_obj h' 1 = Ok (mkU ([] ++ [TStr "orders"]) (Some joined_strat) [] 0) /\
    set_members h' 0 = set_members (mkH [mkU [] None [] 0] [[]]) 0 ++ [1] /\
    (forall s, s <> 0 -> set_members h' s = set_members (mkH [mkU [] None [] 0] [[]]) s).
Proof.
  exact (unbound_set_strategy_shares_to_bind (mkH [mkU [] None [] 0] [[]]) 0
           (mkU [] None [] 0) (TStr "orders") (Some joined_strat)
           eq_refl ltac:(simpl; lia) ltac:(constructor)).
Defined.

Lemma column_strategy_loop (c : nat) (oc : uload) (s : option strat) (attrs : list utoken) :
  forall X sets,
  nth_error X c = Some oc -> u_to_bind oc < length sets ->
  Forall (fun j => j < length X) (nth (u_to_bind oc) sets []) ->
  fold_res (column_strategy_step c s) attrs (mkH X sets)
    = Ok (mkH (X ++ map (fun a => mkU (u_path oc ++ [a]) s [] (u_to_bind oc)) attrs)
              (replace_nth sets (u_to_bind oc)
                 (nth (u_to_bind oc) sets [] ++ seq (length X) (length attrs)))).
Proof.
  induction attrs as [|a attrs IH]; intros X sets Hc Hs HF.
  - simpl. rewrite !app_nil_r, replace_nth_nth by exact Hs. reflexivity.
  - simpl fold_res.
    assert (Hstep : column_strategy_step c s (mkH X sets) a
      = Ok (mkH (X ++ [mkU (u_path oc ++ [a]) s [] (u_to_bind oc)])
                (replace_nth sets (u_to_bind oc) (nth (u_to_bind oc) sets [] ++ [length X])))).
    { unfold column_strategy_step, unbound_generate, get_obj.
      cbn [res_bind h_objs h_sets u_path u_strategy u_local_opts u_to_bind]. rewrite Hc.
      cbn [res_bind h_objs h_sets u_path u_strategy u_local_opts u_to_bind].
      unfold alloc_obj.
      cbn [res_bind h_objs h_sets u_path u_strategy u_local_opts u_to_bind].
      rewrite nth_error_snoc. unfold put_obj.
      cbn [res_bind h_objs h_sets u_path u_strategy u_local_opts u_to_bind].
      rewrite replace_nth_snoc. unfold set_add, set_members.
      cbn [h_objs h_sets]. rewrite existsb_eqb_lt by exact HF. reflexivity. }
    rewrite Hstep. cbn [res_bind].
    rewrite IH.
    + rewrite replace_nth_twice, nth_replace_nth_same by exact Hs.
      rewrite <- !app_assoc, length_app. simpl.
      rewrite Nat.add_1_r. reflexivity.
    + apply nth_error_app_lt; exact Hc.
    + rewrite length_replace_nth; exact Hs.
    + rewrite nth_replace_nth_same by exact Hs. rewrite length_app. simpl.
      apply Forall_app; split.
      * eapply Forall_lt_weaken; [|exact HF]; lia.
      * constructor; [lia | constructor].
Qed.

(** X12. [defer(attrs)] on an unbound option returns a clone with the
    same path and strategy, sharing the original's [_to_bind] set, and adds
    to that shared set one new option per attribute, whose path is the
    option's path followed by the attribute and whose strategy is
    [(("deferred", True), ("instrument", True))]; no other set changes. *)
Theorem unbound_defer_adds_one_loader_per_attribute (h : heap) (i : nat) (o : uload)
  (attrs : list utoken) :
  get_obj h i = Ok o ->
  u_to_bind o < length (h_sets h) ->
  Forall (fun j => j < length (h_objs h)) (set_members h (u_to_bind o)) ->
  exists h',
    unbound_defer h i attrs = Ok (length (h_objs h), h') /\
    h_objs h' = h_objs h ++ mkU (u_path o) (u_strategy o) [] (u_to_bind o)
                  :: map (fun a => mkU (u_path o ++ [a]) (Some defer_strat) [] (u_to_bind o)) attrs /\
    set_members h' (u_to_bind o)
      = set_members h (u_to_bind o) ++ seq (S (length (h_objs h))) (length attrs) /\
    (forall s, s <> u_to_bind o -> set_members h' s = set_members h s).
Proof.
  intros Hi Hs HF. destruct h as [X sets]. simpl in Hs, HF |- *.
  unfold get_obj in Hi; simpl in Hi.
  destruct (nth_error X i) as [o0|] eqn:E; [injection Hi as ->|discriminate].
  unfold unbound_defer, unbound_set_column_strategy, unbound_generate, get_obj.
  cbn [res_bind h_objs h_sets u_path u_strategy u_local_opts u_to_bind]. rewrite E.
  unfold alloc_obj. cbn [res_bind h_objs h_sets u_path u_strategy u_local_opts u_to_bind].
  unfold set_members in HF. cbn [h_sets] in HF.
  rewrite (column_strategy_loop (length X) (mkU (u_path o) (u_strategy o) [] (u_to_bind o))
             (Some defer_strat) attrs (X ++ [mkU (u_path o) (u_strategy o) [] (u_to_bind o)]) sets).
  - cbn [res_bind u_path u_to_bind]. eexists. split; [reflexivity|]. cbn [h_objs h_sets].
    split; [rewrite <- app_assoc; reflexivity|].
    unfold set_members. cbn [h_sets]. rewrite length_app. simpl. rewrite Nat.add_1_r.
    split; [apply nth_replace_nth_same; exact Hs|].
    intros s' Hne. apply nth_replace_nth_other. exact Hne.
  - apply nth_error_snoc.
  - exact Hs.
  - cbn [u_to_bind]. rewrite length_app. eapply Forall_lt_weaken; [|exact HF]; simpl; lia.
Qed.

Lemma unbound_defer_adds_one_loader_per_attribute_witness :
  exists h',
    unbound_defer (mkH [mkU [TStr "orders"] None [] 0] [[]]) 0 [TStr "id"; TStr "name"]
      = Ok (1, h') /\
    h_objs h' = [mkU [TStr "orders"] None [] 0] ++ mkU [TStr "orders"] None [] 0
                  :: map (fun a => mkU ([TStr "orders"] ++ [a]) (Some defer_strat) [] 0)
                         [TStr "id"; TStr "name"] /\
    set_members h' 0 = set_members (mkH [mkU [TStr "orders"] None [] 0] [[]]) 0 ++ seq 2 2 /\
    (forall s, s <> 0 -> set_members h' s = set_members (mkH [mkU [TStr "orders"] None [] 0] [[]]) s).
Proof.
  exact (unbound_defer_adds_one_loader_per_attribute (mkH [mkU [TStr "orders"] None [] 0] [[]])
           0 (mkU [TStr "orders"] None [] 0) [TStr "id"; TStr "name"]
           eq_refl ltac:(simpl; lia) ltac:(constructor)).
Defined.

Lemma string_append_nil_r (s : string) : (s ++ "")%string = s.
Proof. induction s as [|c s IH]; simpl; [reflexivity | rewrite IH; reflexivity]. Qed.

Lemma string_append_assoc (a b c : string) : ((a ++ b) ++ c)%string = (a ++ (b ++ c))%string.
Proof. induction a as [|x a IH]; simpl; [reflexivity | rewrite IH; reflexivity]. Qed.

Lemma list_ascii_of_string_append (a b : string) :
  list_ascii_of_string (a ++ b) = list_ascii_of_string a ++ list_ascii_of_string b.
Proof. induction a as [|x a IH]; simpl; [reflexivity | rewrite IH; reflexivity]. Qed.

Lemma split_dot_aux_no_dot (s acc : string) :
  ~ In "."%char (list_ascii_of_string s) -> split_dot_aux s acc = [(acc ++ s)%string].
Proof.
  revert acc; induction s as [|c s IH]; intros acc H; simpl in *.
  - rewrite string_append_nil_r; reflexivity.
  - assert (Hc : Ascii.eqb c "."%char = false).
    { apply Ascii.eqb_neq. intros ->. apply H; left; reflexivity. }
    rewrite Hc, IH by tauto. rewrite string_append_assoc. reflexivity.
Qed.

Lemma split_dot_aux_pieces_no_dot (s cur : string) :
  ~ In "."%char (list_ascii_of_string cur) ->
  Forall (fun p => ~ In "."%char (list_ascii_of_string p)) (split_dot_aux s cur).
Proof.
  revert cur; induction s as [|c s IH]; intros cur H; simpl.
  - constructor; [exact H | constructor].
  - destruct (Ascii.eqb c "."%char) eqn:Hc.
    + constructor; [exact H|]. apply IH. simpl; tauto.
    + apply IH. rewrite list_ascii_of_string_append. simpl.
      apply Ascii.eqb_neq in Hc. intros Hin. apply in_app_or in Hin as [Hin|[Hin|[]]].
      * exact (H Hin).
      * exact (Hc Hin).
Qed.

Lemma flat_map_split_dot_pieces (l : list string) :
  Forall (fun p => ~ In "."%char (list_ascii_of_string p)) l -> flat_map split_dot l = l.
Proof.
  induction 1 as [|p l Hp _ IH]; cbn [flat_map]; [reflexivity|].
  rewrite IH. unfold split_dot. rewrite split_dot_aux_no_dot by exact Hp. reflexivity.
Qed.

Lemma flat_map_split_dot_idem (keys : list string) :
  flat_map split_dot (flat_map split_dot keys) = flat_map split_dot keys.
Proof.
  apply flat_map_split_dot_pieces. induction keys as [|k keys IH]; cbn [flat_map]; [constructor|].
  apply Forall_app; split; [|exact IH].
  apply split_dot_aux_pieces_no_dot. simpl; tauto.
Qed.

(** X13. [_from_keys] splits every key at its dots and works on the
    concatenated tokens, so a dotted key gives the same option chain as its
    dot-separated pieces passed as separate keys: pre-splitting the keys never
    changes the result. With no keys at all, [all_tokens[-1]] raises
    [IndexError]. *)
Theorem from_keys_dotted_keys_equal_split_keys (keys : list string) (chained : bool)
  (innerjoin : option bool) (h : heap) :
  from_keys (flat_map split_dot keys) chained innerjoin h = from_keys keys chained innerjoin h /\
  from_keys [] chained innerjoin h = Raise IndexError.
Proof.
  split.
  - unfold from_keys. rewrite flat_map_split_dot_idem. reflexivity.
  - unfold from_keys. destruct (unbound_new h) as [o h1]. reflexivity.
Qed.

Lemma load_generate_path_column (attrs_of : nat -> list prop) (c : ctx) (p : path)
  (e : nat) (k : string) (pr : prop) :
  path_tip p = Some (PEnt e) ->
  attrs_lookup attrs_of e k = Ok pr -> prop_mapper pr = None ->
  load_generate_path attrs_of c p (TStr k) = Ok (p ++ [PProp pr], c).
Proof.
  intros Ht Hk Hm. unfold load_generate_path, path_entity. rewrite Ht.
  cbn [res_bind]. rewrite Hk. cbn [res_bind].
  unfold has_entity. rewrite path_tip_snoc, Hm. reflexivity.
Qed.

(** X14. [Load.defer(attrs)] on a bound option whose path ends at an
    entity, with column attributes given by name, stores one loader per
    attribute, in order: at the option's path extended by the column, a
    clone with that path and the deferred strategy. Every path starts from
    the option's own path (the attributes are siblings, not a chain), and
    the option returned keeps its path and strategy. *)
Theorem load_defer_sibling_column_loaders (attrs_of : nat -> list prop) (l : load)
  (e : nat) (ks : list string) (prs : list prop) :
  path_tip (l_path l) = Some (PEnt e) ->
  Forall2 (fun k pr => attrs_lookup attrs_of e k = Ok pr /\ prop_mapper pr = None) ks prs ->
  load_defer attrs_of l (map TStr ks)
    = Ok (mkLoad (l_path l) (l_strategy l)
            (fold_left (fun c pr =>
                          ctx_set c (l_path l ++ [PProp pr]) "loader"
                            (VLoad (l_path l ++ [PProp pr]) (Some defer_strat)))
                       prs (l_context l))).
Proof.
  intros Ht H2. unfold load_defer, load_set_column_strategy.
  assert (Hf : forall c,
    fold_res (fun c a =>
                let* (p, c1) := load_generate_path attrs_of c (l_path l) a in
                Ok (ctx_set c1 p "loader" (VLoad p (Some defer_strat)))) (map TStr ks) c
    = Ok (fold_left (fun c pr =>
                       ctx_set c (l_path l ++ [PProp pr]) "loader"
                         (VLoad (l_path l ++ [PProp pr]) (Some defer_strat))) prs c)).
  { induction H2 as [|k pr ks prs [Hk Hm] _ IH]; intros c; [reflexivity|].
    cbn [map fold_res fold_left].
    rewrite (load_generate_path_column attrs_of c _ e k pr Ht Hk Hm). cbn [res_bind].
    apply IH. }
  rewrite Hf. reflexivity.
Qed.

Lemma load_defer_sibling_column_loaders_witness :
  load_defer demo_attrs (load_new 1) (map TStr ["name"])
    = Ok (mkLoad (l_path (load_new 1)) (l_strategy (load_new 1))
            (fold_left (fun c pr =>
                          ctx_set c (l_path (load_new 1) ++ [PProp pr]) "loader"
                            (VLoad (l_path (load_new 1) ++ [PProp pr]) (Some defer_strat)))
                       [user_name] (l_context (load_new 1)))).
Proof.
  apply (load_defer_sibling_column_loaders demo_attrs (load_new 1) 1 ["name"] [user_name]).
  - reflexivity.
  - constructor; [split; reflexivity | constructor].
Defined.

Lemma path_eq_dec (p q : path) : {p = q} + {p <> q}.
Proof.
  destruct (path_eqb p q) eqn:E.
  - left. apply path_eqb_spec. exact E.
  - right. intros H. apply path_eqb_spec in H. congruence.
Defined.

Lemma ctx_get_set_other_path (c : ctx) p p' k k' v :
  p' <> p -> ctx_get (ctx_set c p k v) p' k' = ctx_get c p' k'.
Proof.
  intros H. apply (dict_get_set_other ckey_eqb ckey_eqb_spec). congruence.
Qed.

Lemma fold_set_not_in (ps : list path) (k k' : string) (v : cval) (p : path) :
  forall c, (~ In p ps \/ k' <> k) ->
  ctx_get (fold_left (fun c q => ctx_set c q k v) ps c) p k' = ctx_get c p k'.
Proof.
  induction ps as [|q ps IH]; intros c H; [reflexivity|]. cbn [fold_left].
  rewrite IH by (destruct H as [H|H]; [left; intros Hin; apply H; right; exact Hin | right; exact H]).
  destruct H as [H|H].
  - apply ctx_get_set_other_path. intros ->. apply H. left; reflexivity.
  - apply ctx_get_set_other_name. exact H.
Qed.

Lemma fold_set_in (ps : list path) (k : string) (v : cval) (p : path) :
  forall c, In p ps -> ctx_get (fold_left (fun c q => ctx_set c q k v) ps c) p k = Some v.
Proof.
  induction ps as [|q ps IH]; intros c H; [destruct H|]. cbn [fold_left].
  destruct (in_dec path_eq_dec p ps) as [Hin|Hnin]; [apply IH; exact Hin|].
  destruct H as [->|H]; [|contradiction].
  rewrite fold_set_not_in by (left; exact Hnin). apply ctx_get_set_same.
Qed.

(** X15. [EagerJoinOption.process_query_property]: when chained, every
    path of the option gets ["eager_join_type"] = [innerjoin]; otherwise
    only the last path does. No other entry of the context changes, and an
    unchained option with no paths raises [IndexError] ([paths[-1]]). *)
Theorem eager_join_option_marks_paths (innerjoin : bool) (paths : list path) (c : ctx) :
  (exists c', eager_join_process_query_property true innerjoin paths c = Ok c' /\
     (forall p, In p paths -> ctx_get c' p "eager_join_type" = Some (VBool innerjoin)) /\
     (forall p k, (~ In p paths \/ k <> "eager_join_type"%string) ->
                  ctx_get c' p k = ctx_get c p k)) /\
  (forall ps p, exists c', eager_join_process_query_property false innerjoin (ps ++ [p]) c = Ok c' /\
     ctx_get c' p "eager_join_type" = Some (VBool innerjoin) /\
     (forall p' k, (p' <> p \/ k <> "eager_join_type"%string) ->
                   ctx_get c' p' k = ctx_get c p' k)) /\
  eager_join_process_query_property false innerjoin [] c = Raise IndexError.
Proof.
  split; [|split].
  - eexists. split; [reflexivity|]. split.
    + intros p Hp. apply fold_set_in. exact Hp.
    + intros p k Hp. apply fold_set_not_in. exact Hp.
  - intros ps p. unfold eager_join_process_query_property. rewrite last_opt_snoc.
    eexists. split; [reflexivity|]. split; [apply ctx_get_set_same|].
    intros p' k [H|H]; [apply ctx_get_set_other_path | apply ctx_get_set_other_name]; exact H.
  - reflexivity.
Qed.

(** X16. The WHERE clause of [Update] and [Delete]: a [whereclause] given
    to the constructor is the same as a first [where()] call, and each
    [where()] call joins its clause to the existing one with [and_], so a
    chain of calls gives the left-nested [and_] of the clauses in call order. *)
Theorem where_calls_conjoin_in_order (W clause : Type) (and_ : clause -> clause -> clause)
  (literal_as_text : W -> clause) (w0 : W) (ws : list W) :
  fold_left (where_ W clause and_ literal_as_text) ws
      (init_whereclause W clause literal_as_text (Some w0))
    = fold_left (where_ W clause and_ literal_as_text) (w0 :: ws) None /\
  fold_left (where_ W clause and_ literal_as_text) (w0 :: ws) None
    = Some (fold_left (fun acc w => and_ acc (literal_as_text w)) ws (literal_as_text w0)) /\
  fold_left (where_ W clause and_ literal_as_text) ws
      (init_whereclause W clause literal_as_text None)
    = fold_left (where_ W clause and_ literal_as_text) ws None.
Proof.
  split; [reflexivity|]. split; [|reflexivity].
  cbn [fold_left]. unfold where_ at 2. generalize (literal_as_text w0) as acc.
  induction ws as [|w ws IH]; intros acc; [reflexivity|]. cbn [fold_left]. apply IH.
Qed.

